(** * eslint-plugin-nextpublic: the [require-justification] rule

    A shallow embedding of the two versions of
    [lib/rules/require-justification.js] found in the repository, and the
    properties of the rule's specification stated over them.

    - [RuleA] is the version with the upward directory search, the optional
      [rcPath] option, the [MemberExpression] visitor and the process-wide
      aggregate (threshold 20).
    - [RuleB] is the version that only looks into the working directory and
      prints a per-file summary (threshold 8).

    JavaScript strings are modelled by [string]; one character stands for one
    UTF-16 code unit, so only code units below 256 are covered. *)

From Stdlib Require Import Ascii String List Arith Lia DecimalString.
From stdpp Require Import gmap strings list.

Set Warnings "-register-all".

(** ** String primitives of the JavaScript runtime used by the rule *)

Module JS.

(** [s.startsWith(p)] *)
Definition startsWith (s p : string) : bool := String.prefix p s.

(** [s.includes(p)] *)
Fixpoint includes (s p : string) : bool :=
  String.prefix p s ||
  match s with
  | EmptyString => false
  | String _ s' => includes s' p
  end.

(** White space and line terminators removed by [trim], among the code
    units below 256: TAB, LF, VT, FF, CR, SPACE and NBSP. *)
Definition is_white (c : ascii) : bool :=
  match nat_of_ascii c with
  | 9 | 10 | 11 | 12 | 13 | 32 | 160 => true
  | _ => false
  end.

Fixpoint trimStart (s : string) : string :=
  match s with
  | EmptyString => EmptyString
  | String c s' => if is_white c then trimStart s' else s
  end.

Fixpoint trimEnd (s : string) : string :=
  match s with
  | EmptyString => EmptyString
  | String c s' =>
      match trimEnd s' with
      | EmptyString => if is_white c then EmptyString else String c EmptyString
      | t => String c t
      end
  end.

(** [s.trim()] *)
Definition trim (s : string) : string := trimEnd (trimStart s).

(** [s.split(sep)] for a one-character separator; the empty string splits
    into one empty piece. *)
Fixpoint split (sep : ascii) (s : string) : list string :=
  match s with
  | EmptyString => [EmptyString]
  | String c s' =>
      if Ascii.eqb c sep then EmptyString :: split sep s'
      else match split sep s' with
           | h :: t => String c h :: t
           | [] => [String c EmptyString]
           end
  end.

(** Truthiness of a string: [!s] holds exactly for the empty string. *)
Definition truthy (s : string) : bool :=
  match s with EmptyString => false | _ => true end.

(** Longest prefix of [s] whose characters satisfy [f], and the rest. *)
Fixpoint span (f : ascii -> bool) (s : string) : string * string :=
  match s with
  | EmptyString => (EmptyString, EmptyString)
  | String c s' =>
      if f c then let '(a, b) := span f s' in (String c a, b)
      else (EmptyString, s)
  end.

Fixpoint drop (n : nat) (s : string) : string :=
  match n, s with
  | S k, String _ s' => drop k s'
  | _, _ => s
  end.

(** Decimal rendering of a count inside a template literal. *)
Definition of_nat (n : nat) : string :=
  NilEmpty.string_of_uint (Nat.to_uint n).

End JS.

(** ** The two regular expressions of the rule *)

Module Regex.

Definition LF : ascii := ascii_of_nat 10.
Definition CR : ascii := ascii_of_nat 13.
Definition DQ : ascii := ascii_of_nat 34.
Definition EQ : ascii := ascii_of_nat 61.

Definition NEXT_PUBLIC_ : string := "NEXT_PUBLIC_".

(** The class [[A-Z0-9_]]. *)
Definition is_var_char (c : ascii) : bool :=
  let n := nat_of_ascii c in
  ((65 <=? n) && (n <=? 90)) || ((48 <=? n) && (n <=? 57)) || (n =? 95).

(** [/NEXT_PUBLIC_[A-Z0-9_]+/] tried at the first position of [s]: the
    literal part is fixed, and the greedy class takes the whole run. *)
Definition match_here (s : string) : option string :=
  if String.prefix NEXT_PUBLIC_ s then
    match JS.span is_var_char (JS.drop 12 s) with
    | (EmptyString, _) => None
    | (run, _) => Some (NEXT_PUBLIC_ +:+ run)
    end
  else None.

(** Scan from left to right; after a match the search resumes behind it
    ([skip] counts the characters of the last match still to pass). *)
Fixpoint match_all_go (skip : nat) (s : string) : list string :=
  match s with
  | EmptyString => []
  | String _ s' =>
      match skip with
      | S k => match_all_go k s'
      | O =>
          match match_here s with
          | Some m => m :: match_all_go (String.length m - 1) s'
          | None => match_all_go 0 s'
          end
      end
  end.

(** [s.match(/NEXT_PUBLIC_[A-Z0-9_]+/g)]: [null] when nothing matches,
    otherwise the array of all matches. *)
Definition match_g (s : string) : option (list string) :=
  match match_all_go 0 s with
  | [] => None
  | ms => Some ms
  end.

(** The class of [.]: every character but the line terminators. *)
Definition is_dot (c : ascii) : bool :=
  negb (Ascii.eqb c LF || Ascii.eqb c CR).

Definition not_eq_sign (c : ascii) : bool := negb (Ascii.eqb c EQ).

Fixpoint all_chars (f : ascii -> bool) (s : string) : bool :=
  match s with
  | EmptyString => true
  | String c s' => f c && all_chars f s'
  end.

(** Splits off the last character. *)
Fixpoint unsnoc (s : string) : option (string * ascii) :=
  match s with
  | EmptyString => None
  | String c s' =>
      match unsnoc s' with
      | None => Some (EmptyString, c)
      | Some (i, l) => Some (String c i, l)
      end
  end.

(** The line pattern of the simple format: start of line, a group of one
    or more characters other than [=], an [=], a double quote, a group of
    any characters but line terminators, a double quote, end of input.
    The result is the two groups, or [None] for [null].  The first group
    has to stop in front of the first [=]; what follows must be a quote;
    the second group is everything up to the quote that ends the line. *)
Definition match_line (line : string) : option (string * string) :=
  match JS.span not_eq_sign line with
  | (EmptyString, _) => None
  | (key, String e (String q rest)) =>
      if Ascii.eqb e EQ && Ascii.eqb q DQ then
        match unsnoc rest with
        | Some (value, l) =>
            if Ascii.eqb l DQ && all_chars is_dot value
            then Some (key, value) else None
        | None => None
        end
      else None
  | _ => None
  end.

End Regex.

(** ** Data model *)

(** The justification store: the own properties of the object the loader
    returns, from variable name to justification text.  Sidecar documents
    whose JSON value is not a flat object of strings are outside the model. *)
Abbreviation JustificationStore := (gmap string string).

(** [object[key] = value] on a plain object, for a string [value].  The key
    [__proto__] reaches the setter inherited from [Object.prototype], which
    ignores a value that is neither an object nor [null]: nothing changes.
    Every other key becomes an own property. *)
Definition set_property (key value : string) (object : JustificationStore)
  : JustificationStore :=
  if decide (key = "__proto__") then object else <[key := value]> object.

(** A directory or file is the list of its path components, innermost
    first; the filesystem root is the empty list.  This is an absolute,
    normalised POSIX path, as [process.cwd()] gives it. *)
Abbreviation path := (list string).

(** What the filesystem holds at a path: a file that can be read, or an
    entry that exists but whose read fails (no permission, a directory,
    removed between the existence check and the read). *)
Inductive fentry :=
| File (content : string)
| Unreadable.

Inductive error :=
| ReadError
| TypeError.

Inductive outcome (A : Type) :=
| Return (a : A)
| Throws (e : error).
Arguments Return {A} a.
Arguments Throws {A} e.

(** The collaborators of the rule: the runtime's [JSON.parse] ([None] when
    it throws a [SyntaxError]) and the filesystem. *)
Record Host := {
  JSON_parse : string -> option JustificationStore;
  fs : gmap path fentry
}.

Definition existsSync (h : Host) (p : path) : bool :=
  match fs h !! p with Some _ => true | None => false end.

Definition readFileSync (h : Host) (p : path) : outcome string :=
  match fs h !! p with
  | Some (File content) => Return content
  | _ => Throws ReadError
  end.

Module Path.

Definition root : path := [].

(** [path.dirname(p)]; the root is its own parent. *)
Definition dirname (p : path) : path := tail p.

(** [path.join(dir, name)] for a plain file name. *)
Definition join (dir : path) (name : string) : path := name :: dir.

Definition resolve_step (acc : path) (seg : string) : path :=
  if decide (seg = "" \/ seg = ".") then acc
  else if decide (seg = "..") then tail acc
  else seg :: acc.

(** [path.resolve(cwd, p)]: an absolute [p] starts again from the root. *)
Definition resolve (cwd : path) (p : string) : path :=
  fold_left resolve_step (JS.split "/"%char p)
            (if JS.startsWith p "/" then root else cwd).

End Path.

(** The part of an ESTree syntax tree the rule looks at.  [Other] stands for
    every other kind of node, with its children in traversal order (a
    template literal is an [Other] node over its quasis and expressions).
    [PrivateIdentifier] is the private name of a class member, as in
    [object.#name]: the one other node that carries a [name] at a place
    where the rule reads it. *)
Inductive LitValue :=
| LString (s : string)
| LOther.

Inductive Node :=
| Literal (value : LitValue)
| Identifier (name : string)
| TemplateElement (raw : string)
| MemberExpression (object property : Node) (computed : bool)
| Other (type : string) (children : list Node)
| PrivateIdentifier (name : string).

(** [node.name], read without a look at the type of the node: [None]
    stands for [undefined]. *)
Definition node_name (n : Node) : option string :=
  match n with
  | Identifier name => Some name
  | PrivateIdentifier name => Some name
  | _ => None
  end.

Record Diagnostic := {
  diag_node : Node;
  diag_message : string
}.

(** What one file visit accumulates: the calls of [context.report], in
    order, and the set [foundVariables]. *)
Record State := {
  reports : list Diagnostic;
  foundVariables : gset string
}.

Definition initial : State := {| reports := []; foundVariables := ∅ |}.

Definition report (node : Node) (message : string) (st : State) : State :=
  {| reports := reports st ++ [{| diag_node := node; diag_message := message |}];
     foundVariables := foundVariables st |}.

Definition found_add (variable : string) (st : State) : State :=
  {| reports := reports st;
     foundVariables := {[variable]} ∪ foundVariables st |}.

(** The two message templates. Both versions of the rule print the number 8
    in the second one. *)
Definition msg_requires (variable : string) : string :=
  "NEXT_PUBLIC variable '" +:+ variable +:+
  "' requires justification in .nextpublicrc file".

Definition msg_too_short (variable : string) : string :=
  "Justification for NEXT_PUBLIC variable '" +:+ variable +:+
  "' must be at least 8 characters long".

(** The host linter's traversal: every node is entered before its children,
    children from left to right, and the visitor registered for a node type
    is called on every node of that type, wherever it sits in the tree (the
    property of a member expression included). *)
Fixpoint traverse (enter : Node -> State -> State) (n : Node) (st : State)
  : State :=
  let st := enter n st in
  match n with
  | MemberExpression object property _ =>
      traverse enter property (traverse enter object st)
  | Other _ children =>
      fold_left (fun st c => traverse enter c st) children st
  | _ => st
  end.

(** ** Version A: upward search, [rcPath], member expressions, threshold 20 *)

Module RuleA.

(** The callback of [lines.forEach] in [parseSimpleFormat]. *)
Definition parse_line (justifications : JustificationStore) (line : string)
  : JustificationStore :=
  if negb (JS.truthy (JS.trim line)) || JS.startsWith (JS.trim line) "#"
  then justifications
  else match Regex.match_line line with
       | Some (key, value) =>
           set_property (JS.trim key) (JS.trim value) justifications
       | None => justifications
       end.

Definition parseSimpleFormat (content : string) : JustificationStore :=
  fold_left parse_line (JS.split Regex.LF content) ∅.

(** [try { return JSON.parse(content) } catch (e) { return
    parseSimpleFormat(content) }] *)
Definition parse_content (h : Host) (content : string) : JustificationStore :=
  match JSON_parse h content with
  | Some justifications => justifications
  | None => parseSimpleFormat content
  end.

(** The read of an existing file followed by the parse; the read is not
    inside any [try]. *)
Definition read_and_parse (h : Host) (p : path) : outcome JustificationStore :=
  match readFileSync h p with
  | Return content => Return (parse_content h content)
  | Throws e => Throws e
  end.

Definition no_file_message : string :=
  "No .nextpublicrc file found in any parent directory".

(** The [while (currentDir !== root)] loop; the result comes with the
    lines printed by [console.log]. *)
Fixpoint search (h : Host) (currentDir : path)
  : list string * outcome JustificationStore :=
  match currentDir with
  | [] => ([no_file_message], Return ∅)
  | _ :: parentDir =>
      let rcFilePath := Path.join currentDir ".nextpublicrc" in
      if existsSync h rcFilePath then ([], read_and_parse h rcFilePath)
      else if decide (parentDir = currentDir)
           then ([no_file_message], Return ∅)
           else search h parentDir
  end.

Definition customRcPath (cwd : path) (rcPath : option string) : option path :=
  match rcPath with
  | Some p => if JS.truthy p then Some (Path.resolve cwd p) else None
  | None => None
  end.

Definition readJustificationsFile (h : Host) (cwd : path)
  (rcPath : option string) : list string * outcome JustificationStore :=
  match customRcPath cwd rcPath with
  | Some p =>
      if existsSync h p then ([], read_and_parse h p) else search h cwd
  | None => search h cwd
  end.

Definition checkJustification (variable : string)
  (justifications : JustificationStore) (node : Node) (st : State) : State :=
  let st := found_add variable st in
  match justifications !! variable with
  | None => report node (msg_requires variable) st
  | Some text =>
      if negb (JS.truthy text) then report node (msg_requires variable) st
      else if String.length text <? 20
           then report node (msg_too_short variable) st
           else st
  end.

Definition check_each (justifications : JustificationStore) (node : Node)
  (st : State) (variable : string) : State :=
  checkJustification variable justifications node st.

Definition visit_Literal (justifications : JustificationStore) (node : Node)
  (value : LitValue) (st : State) : State :=
  match value with
  | LString s =>
      if JS.includes s "NEXT_PUBLIC_" then
        match Regex.match_g s with
        | Some matches => fold_left (check_each justifications node) matches st
        | None => st
        end
      else st
  | LOther => st
  end.

Definition visit_Identifier (justifications : JustificationStore)
  (node : Node) (name : string) (st : State) : State :=
  if JS.startsWith name "NEXT_PUBLIC_"
  then checkJustification name justifications node st
  else st.

Definition visit_TemplateElement (justifications : JustificationStore)
  (node : Node) (raw : string) (st : State) : State :=
  if JS.truthy raw && JS.includes raw "NEXT_PUBLIC_" then
    match Regex.match_g raw with
    | Some matches => fold_left (check_each justifications node) matches st
    | None => st
    end
  else st.

(** The test shared by both cases of the [MemberExpression] visitor:
    [node.object] is a member expression whose object is named [process]
    and whose property is named [env]. *)
Definition on_process_env (object : Node) : bool :=
  match object with
  | MemberExpression o p _ =>
      bool_decide (node_name o = Some "process")
      && bool_decide (node_name p = Some "env")
  | _ => false
  end.

Definition visit_MemberExpression (justifications : JustificationStore)
  (node object property : Node) (st : State) : State :=
  let st :=
    match property with
    | Identifier name =>
        if on_process_env object && JS.startsWith name "NEXT_PUBLIC_"
        then checkJustification name justifications node st
        else st
    | _ => st
    end in
  match property with
  | Literal (LString value) =>
      if on_process_env object && JS.startsWith value "NEXT_PUBLIC_"
      then checkJustification value justifications node st
      else st
  | _ => st
  end.

Definition enter (justifications : JustificationStore) (node : Node)
  (st : State) : State :=
  match node with
  | Literal value => visit_Literal justifications node value st
  | Identifier name => visit_Identifier justifications node name st
  | TemplateElement raw => visit_TemplateElement justifications node raw st
  | MemberExpression object property _ =>
      visit_MemberExpression justifications node object property st
  | Other _ _ => st
  | PrivateIdentifier _ => st
  end.

(** [global.eslintPluginNextPublic] and the process it lives in.  The
    field [justificationsCache] that [create] deletes is never set by the
    rule and is left out. *)
Record PluginGlobal := {
  allFoundVariables : gset string;
  processed : bool;
  exitListenerAdded : bool
}.

Record Process := {
  eslintPluginNextPublic : option PluginGlobal;
  exitListeners : nat;
  console : list string
}.

Definition log (lines : list string) (p : Process) : Process :=
  {| eslintPluginNextPublic := eslintPluginNextPublic p;
     exitListeners := exitListeners p;
     console := console p ++ lines |}.

(** The part of [create] before the visitors are returned. *)
Definition create (h : Host) (cwd : path) (rcPath : option string)
  (p : Process) : Process * outcome JustificationStore :=
  let '(lines, r) := readJustificationsFile h cwd rcPath in
  let p := log lines p in
  match r with
  | Throws e => (p, Throws e)
  | Return justifications =>
      match eslintPluginNextPublic p with
      | Some _ => (p, Return justifications)
      | None =>
          ({| eslintPluginNextPublic :=
                Some {| allFoundVariables := ∅; processed := false;
                        exitListenerAdded := true |};
              exitListeners := S (exitListeners p);
              console := console p |},
           Return justifications)
      end
  end.

(** The [Program:exit] visitor: the file's set is added to the global one;
    nothing is printed. *)
Definition visit_Program_exit (st : State) (p : Process) : outcome Process :=
  match eslintPluginNextPublic p with
  | Some g =>
      Return {| eslintPluginNextPublic :=
                  Some {| allFoundVariables :=
                            allFoundVariables g ∪ foundVariables st;
                          processed := processed g;
                          exitListenerAdded := exitListenerAdded g |};
                exitListeners := exitListeners p;
                console := console p |}
  | None =>
      if decide (foundVariables st = ∅) then Return p else Throws TypeError
  end.

Definition total_message (totalCount : nat) : string :=
  "Found a total of " +:+ JS.of_nat totalCount +:+
  " unique NEXT_PUBLIC variables across all files.".

(** The listener registered with [process.on('exit', ...)]. *)
Definition exit_listener (p : Process) : outcome Process :=
  match eslintPluginNextPublic p with
  | Some g =>
      if processed g then Return p
      else
        Return {| eslintPluginNextPublic :=
                    Some {| allFoundVariables := ∅; processed := false;
                            exitListenerAdded := exitListenerAdded g |};
                  exitListeners := exitListeners p;
                  console :=
                    console p ++ [total_message (size (allFoundVariables g))] |}
  | None => Throws TypeError
  end.

(** One run of the rule over the syntax tree of one file. *)
Definition lint (h : Host) (cwd : path) (rcPath : option string)
  (program : Node) (p : Process) : Process * outcome (list Diagnostic) :=
  match create h cwd rcPath p with
  | (p, Throws e) => (p, Throws e)
  | (p, Return justifications) =>
      let st := traverse (enter justifications) program initial in
      match visit_Program_exit st p with
      | Return p' => (p', Return (reports st))
      | Throws e => (p, Throws e)
      end
  end.

End RuleA.

(** ** Version B: working directory only, per-file summary, threshold 8 *)

Module RuleB.

(** The callback of [lines.forEach] inside [readJustificationsFile]. *)
Definition parse_line (justifications : JustificationStore) (line : string)
  : JustificationStore :=
  if negb (JS.truthy (JS.trim line)) || JS.startsWith (JS.trim line) "#"
  then justifications
  else match Regex.match_line line with
       | Some (key, value) =>
           set_property (JS.trim key) (JS.trim value) justifications
       | None => justifications
       end.

(** The whole body sits in a [try] whose [catch] is empty, so a failed
    read ends in the final [return {}]. *)
Definition readJustificationsFile (h : Host) (cwd : path)
  : JustificationStore :=
  let rcFilePath := Path.resolve cwd ".nextpublicrc" in
  if existsSync h rcFilePath then
    match readFileSync h rcFilePath with
    | Return content =>
        match JSON_parse h content with
        | Some justifications => justifications
        | None => fold_left parse_line (JS.split Regex.LF content) ∅
        end
    | Throws _ => ∅
    end
  else ∅.

(** The callback of [matches.forEach] in the [Literal] visitor. *)
Definition Literal_each (justifications : JustificationStore) (node : Node)
  (st : State) (variable : string) : State :=
  let st := found_add variable st in
  match justifications !! variable with
  | None => report node (msg_requires variable) st
  | Some text =>
      if negb (JS.truthy text) then report node (msg_requires variable) st
      else if String.length text <? 8
           then report node (msg_too_short variable) st
           else st
  end.

Definition visit_Literal (justifications : JustificationStore) (node : Node)
  (value : LitValue) (st : State) : State :=
  match value with
  | LString s =>
      if JS.includes s "NEXT_PUBLIC_" then
        match Regex.match_g s with
        | Some matches => fold_left (Literal_each justifications node) matches st
        | None => st
        end
      else st
  | LOther => st
  end.

Definition visit_Identifier (justifications : JustificationStore)
  (node : Node) (name : string) (st : State) : State :=
  if JS.startsWith name "NEXT_PUBLIC_" then
    let st := found_add name st in
    match justifications !! name with
    | None => report node (msg_requires name) st
    | Some text =>
        if negb (JS.truthy text) then report node (msg_requires name) st
        else if String.length text <? 8
             then report node (msg_too_short name) st
             else st
    end
  else st.

(** The callback of [matches.forEach] in the [TemplateElement] visitor. *)
Definition TemplateElement_each (justifications : JustificationStore)
  (node : Node) (st : State) (variable : string) : State :=
  let st := found_add variable st in
  match justifications !! variable with
  | None => report node (msg_requires variable) st
  | Some text =>
      if negb (JS.truthy text) then report node (msg_requires variable) st
      else if String.length text <? 8
           then report node (msg_too_short variable) st
           else st
  end.

Definition visit_TemplateElement (justifications : JustificationStore)
  (node : Node) (raw : string) (st : State) : State :=
  if JS.truthy raw && JS.includes raw "NEXT_PUBLIC_" then
    match Regex.match_g raw with
    | Some matches =>
        fold_left (TemplateElement_each justifications node) matches st
    | None => st
    end
  else st.

Definition enter (justifications : JustificationStore) (node : Node)
  (st : State) : State :=
  match node with
  | Literal value => visit_Literal justifications node value st
  | Identifier name => visit_Identifier justifications node name st
  | TemplateElement raw => visit_TemplateElement justifications node raw st
  | MemberExpression _ _ _ => st
  | Other _ _ => st
  | PrivateIdentifier _ => st
  end.

Definition summary_message (count : nat) : string :=
  "Found " +:+ JS.of_nat count +:+ " unique NEXT_PUBLIC variables in the code.".

(** The [Program:exit] visitor: the lines it prints with [console.log]. *)
Definition visit_Program_exit (st : State) : list string :=
  let count := size (foundVariables st) in
  if 0 <? count then [summary_message count] else [].

Record Run := {
  diagnostics : list Diagnostic;
  console : list string
}.

(** One run of the rule over the syntax tree of one file. *)
Definition lint (h : Host) (cwd : path) (program : Node) : Run :=
  let justifications := readJustificationsFile h cwd in
  let st := traverse (enter justifications) program initial in
  {| diagnostics := reports st; console := visit_Program_exit st |}.

End RuleB.

(** ** Sample inputs *)

Module Sample.

Definition process_env : Node :=
  MemberExpression (Identifier "process") (Identifier "env") false.

(** [process.env.NAME] *)
Definition static_access (name : string) : Node :=
  MemberExpression process_env (Identifier name) false.

(** [process.env[VALUE]] with a string literal between the brackets *)
Definition computed_access (value : string) : Node :=
  MemberExpression process_env (Literal (LString value)) true.

(** [const ID = INIT;] as the only statement of a program *)
Definition const_decl (id : string) (init : Node) : Node :=
  Other "Program"
    [Other "VariableDeclaration"
       [Other "VariableDeclarator" [Identifier id; init]]].

(** A host without any file, on which [JSON.parse] accepts nothing. *)
Definition bare_host : Host :=
  {| JSON_parse := fun _ => None; fs := ∅ |}.

Definition host_with (files : gmap path fentry) : Host :=
  {| JSON_parse := fun _ => None; fs := files |}.

(** A host on which [JSON.parse] accepts the document [{}] and nothing
    else. *)
Definition json_host : Host :=
  {| JSON_parse := fun content => if String.eqb content "{}" then Some ∅ else None;
     fs := ∅ |}.

(** [KEY=Q VALUE Q], a line of the simple format (Q is the double quote). *)
Definition entry_line (key value : string) : string :=
  key +:+ String Regex.EQ (String Regex.DQ (value +:+ String Regex.DQ "")).

(** The lines joined by line feeds. *)
Fixpoint unlines (lines : list string) : string :=
  match lines with
  | [] => ""
  | [l] => l
  | l :: rest => l +:+ String Regex.LF (unlines rest)
  end.

Definition api_url_line : string :=
  entry_line "NEXT_PUBLIC_API_URL"
    "This URL is public because it is necessary for client API calls".

(** [/home/.nextpublicrc] and [/home/conf/rc] are files; the working
    directory of the examples is [/home/proj/app]. *)
Definition project_files : gmap path fentry :=
  {[ [".nextpublicrc"; "home"] := File api_url_line;
     ["rc"; "conf"; "home"] := File "# nothing justified yet" ]}.

Definition app_dir : path := ["app"; "proj"; "home"].

(** Only [/.nextpublicrc] exists. *)
Definition root_only_files : gmap path fentry :=
  {[ [".nextpublicrc"] := File api_url_line ]}.

(** [/proj/.nextpublicrc] exists and cannot be read. *)
Definition unreadable_files : gmap path fentry :=
  {[ [".nextpublicrc"; "proj"] := Unreadable ]}.

Definition fresh_process : RuleA.Process :=
  {| RuleA.eslintPluginNextPublic := None;
     RuleA.exitListeners := 0;
     RuleA.console := [] |}.

End Sample.

(** ** Vocabulary of the properties *)

(** A well-formed variable suffix: one or more characters of the class. *)
Definition valid_suffix (x : string) : Prop :=
  x <> "" /\ Regex.all_chars Regex.is_var_char x = true.

Definition extend (st : State) (ds : list Diagnostic) (vs : gset string)
  : State :=
  {| reports := reports st ++ ds; foundVariables := vs ∪ foundVariables st |}.

(** A step is framed when it treats the state it starts from as a prefix:
    it appends what it would have produced from the initial state. *)
Definition framed (f : State -> State) : Prop :=
  forall st,
    f st = extend st (reports (f initial)) (foundVariables (f initial)).

Definition messages (st : State) : list string :=
  map diag_message (reports st).

(** The messages of one validation of [variable] against the store, for the
    threshold [minimum]. *)
Definition verdict (minimum : nat) (justifications : JustificationStore)
  (variable : string) : list string :=
  match justifications !! variable with
  | None => [msg_requires variable]
  | Some text =>
      if negb (JS.truthy text) then [msg_requires variable]
      else if String.length text <? minimum then [msg_too_short variable]
      else []
  end.

(** The search path in the words of the specification: the working
    directory, then each ancestor in turn, stopping at the filesystem root,
    which is not part of it. *)
Fixpoint self_and_ancestors (d : path) : list path :=
  match d with
  | [] => []
  | _ :: parent => d :: self_and_ancestors parent
  end.

Definition rc_file (d : path) : path := ".nextpublicrc" :: d.

(** The explicit path is not used: none is configured, or nothing exists
    at the configured place. *)
Definition explicit_unused (h : Host) (cwd : path) (rcPath : option string)
  : Prop :=
  match RuleA.customRcPath cwd rcPath with
  | Some p => fs h !! p = None
  | None => True
  end.

(** A line of the shape [KEY=Q VALUE Q] (Q is the double quote): a
    non-empty key without [=], and a value without line terminator between
    the quote after the first [=] and the quote that ends the line. *)
Definition key_value_line (line key value : string) : Prop :=
  line = key +:+ String Regex.EQ (String Regex.DQ (value +:+ String Regex.DQ ""))
  /\ key <> ""
  /\ Regex.all_chars Regex.not_eq_sign key = true
  /\ Regex.all_chars Regex.is_dot value = true.

(** Blank lines and comment lines. *)
Definition skipped_line (line : string) : Prop :=
  JS.trim line = "" \/ JS.startsWith (JS.trim line) "#" = true.

(** *** Detections *)

(** The names the visitors of version A validate when the traversal enters
    the node, in the order of the validations.  They depend on the node
    alone, not on the store. *)
Definition validated_A (n : Node) : list string :=
  match n with
  | Literal (LString s) => Regex.match_all_go 0 s
  | Literal LOther => []
  | Identifier name => if JS.startsWith name "NEXT_PUBLIC_" then [name] else []
  | TemplateElement raw => Regex.match_all_go 0 raw
  | MemberExpression object property _ =>
      if RuleA.on_process_env object then
        match property with
        | Identifier name
        | Literal (LString name) =>
            if JS.startsWith name "NEXT_PUBLIC_" then [name] else []
        | _ => []
        end
      else []
  | Other _ _ => []
  | PrivateIdentifier _ => []
  end.

(** The same for version B, which has no visitor for member expressions. *)
Definition validated_B (n : Node) : list string :=
  match n with
  | Literal (LString s) => Regex.match_all_go 0 s
  | Identifier name => if JS.startsWith name "NEXT_PUBLIC_" then [name] else []
  | TemplateElement raw => Regex.match_all_go 0 raw
  | _ => []
  end.

(** All validations of a traversal, each with the node it is reported on,
    in traversal order. *)
Fixpoint detections (validated : Node -> list string) (n : Node)
  : list (Node * string) :=
  map (pair n) (validated n) ++
  match n with
  | MemberExpression object property _ =>
      detections validated object ++ detections validated property
  | Other _ children => flat_map (detections validated) children
  | _ => []
  end.

(** The diagnostics of one validation, on its node. *)
Definition emit (minimum : nat) (justifications : JustificationStore)
  (d : Node * string) : list Diagnostic :=
  map (fun m => {| diag_node := fst d; diag_message := m |})
    (verdict minimum justifications (snd d)).

(** The nodes of a tree, in traversal order. *)
Fixpoint subnodes (n : Node) : list Node :=
  n ::
  match n with
  | MemberExpression object property _ => subnodes object ++ subnodes property
  | Other _ children => flat_map subnodes children
  | _ => []
  end.

(** A store entry that passes the validation with the given minimum. *)
Definition justified (minimum : nat) (justifications : JustificationStore)
  (variable : string) : Prop :=
  exists text,
    justifications !! variable = Some text /\ minimum <= String.length text.

(** The two messages about one variable. *)
Definition about (v m : string) : Prop :=
  m = msg_requires v \/ m = msg_too_short v.

#[global] Instance about_dec (v m : string) : Decision (about v m).
Proof. unfold about. apply _. Defined.

(** *** Sidecar lines *)

(** The entry a line of the simple format contributes. *)
Definition line_entry (line k v : string) : Prop :=
  ~ skipped_line line
  /\ exists key value,
      key_value_line line key value /\ k = JS.trim key /\ v = JS.trim value.

(** *** Several files in one process *)

(** The host runs the rule of version A over the trees of several files, one
    after the other, in one process. *)
Definition lint_files (h : Host) (cwd : path) (rcPath : option string)
  (programs : list Node) (p : RuleA.Process) : RuleA.Process :=
  fold_left (fun p program => fst (RuleA.lint h cwd rcPath program p))
    programs p.

(** The names found in one file. *)
Definition found_in (validated : Node -> list string) (program : Node)
  : gset string :=
  list_to_set (map snd (detections validated program)).

(** ** Facts about the string primitives and the two patterns *)

Example match_g_two :
  Regex.match_g "a NEXT_PUBLIC_A1-NEXT_PUBLIC_b NEXT_PUBLIC_NEXT_PUBLIC_Z."
  = Some ["NEXT_PUBLIC_A1"; "NEXT_PUBLIC_NEXT_PUBLIC_Z"].
Proof. reflexivity. Qed.

Example match_line_ok :
  Regex.match_line ("K =" +:+ String Regex.DQ ("a" +:+ String Regex.DQ ("b" +:+ String Regex.DQ "")))
  = Some ("K ", "a" +:+ String Regex.DQ "b").
Proof. reflexivity. Qed.


Section StringFacts.

Lemma append_cons (c : ascii) (s t : string) :
  String c s +:+ t = String c (s +:+ t).
Proof. reflexivity. Qed.

Lemma append_empty_l (t : string) : "" +:+ t = t.
Proof. reflexivity. Qed.

Lemma append_empty_r (s : string) : s +:+ "" = s.
Proof.
  induction s as [|c s IH]; [done|]. by rewrite append_cons, IH.
Qed.

Lemma append_assoc (a b c : string) : (a +:+ b) +:+ c = a +:+ (b +:+ c).
Proof.
  induction a as [|x a IH]; [done|]. by rewrite !append_cons, IH.
Qed.

Lemma length_append (a b : string) :
  String.length (a +:+ b) = String.length a + String.length b.
Proof.
  induction a as [|x a IH]; [done|]. rewrite append_cons. cbn. by rewrite IH.
Qed.

Lemma span_all (f : ascii -> bool) (s : string) :
  Regex.all_chars f s = true -> JS.span f s = (s, "").
Proof.
  induction s as [|c s IH]; cbn; [done|].
  intros [Hc Hs]%andb_prop. rewrite Hc, (IH Hs). done.
Qed.

(** The parts of [span]: a run of characters that satisfy [f], and a rest
    that does not start with such a character. *)
Lemma span_spec (f : ascii -> bool) (s a b : string) :
  JS.span f s = (a, b) ->
  s = a +:+ b /\ Regex.all_chars f a = true /\
  match b with String c _ => f c = false | EmptyString => True end.
Proof.
  revert a b. induction s as [|c s IH]; cbn; intros a b.
  - intros [= <- <-]. done.
  - destruct (f c) eqn:Hc.
    + destruct (JS.span f s) as [a' b'] eqn:Hs. intros [= <- <-].
      destruct (IH _ _ eq_refl) as (-> & Ha & Hb).
      rewrite append_cons. cbn. by rewrite Hc, Ha.
    + intros [= <- <-]. rewrite append_empty_l. by rewrite Hc.
Qed.

Lemma span_unique (f : ascii -> bool) (a b : string) :
  Regex.all_chars f a = true ->
  match b with String c _ => f c = false | EmptyString => True end ->
  JS.span f (a +:+ b) = (a, b).
Proof.
  intros Ha Hb. induction a as [|c a IH].
  - rewrite append_empty_l. destruct b as [|c b]; cbn; [done | by rewrite Hb].
  - cbn in Ha. apply andb_prop in Ha as [Hc Ha].
    rewrite append_cons. cbn. by rewrite Hc, (IH Ha).
Qed.

Lemma prefix_empty (s : string) : String.prefix "" s = true.
Proof. by destruct s. Qed.

Lemma prefix_append (p s : string) : String.prefix p (p +:+ s) = true.
Proof.
  induction p as [|c p IH]; [apply prefix_empty|].
  rewrite append_cons. cbn. by destruct (ascii_dec c c).
Qed.

Lemma includes_prefix (s p : string) :
  String.prefix p s = true -> JS.includes s p = true.
Proof.
  intros H.
  assert (JS.includes s p = String.prefix p s ||
            match s with
            | EmptyString => false
            | String _ s' => JS.includes s' p
            end) as -> by (by destruct s).
  by rewrite H.
Qed.

Lemma match_all_go_skip (s : string) (k : nat) :
  String.length s <= k -> Regex.match_all_go k s = [].
Proof.
  revert k. induction s as [|c s IH]; intros k Hk; cbn in *; [done|].
  destruct k as [|k]; [lia|]. apply IH. lia.
Qed.

End StringFacts.

Lemma match_here_name (x : string) :
  valid_suffix x ->
  Regex.match_here ("NEXT_PUBLIC_" +:+ x) = Some ("NEXT_PUBLIC_" +:+ x).
Proof.
  intros [Hne Hall]. unfold Regex.match_here, Regex.NEXT_PUBLIC_.
  rewrite prefix_append.
  change (JS.drop 12 ("NEXT_PUBLIC_" +:+ x)) with x.
  rewrite (span_all _ _ Hall). by destruct x.
Qed.

(** The pattern finds a well-formed name exactly once in itself. *)
Lemma match_g_name (x : string) :
  valid_suffix x ->
  Regex.match_g ("NEXT_PUBLIC_" +:+ x) = Some ["NEXT_PUBLIC_" +:+ x].
Proof.
  intros Hx. unfold Regex.match_g.
  assert (Regex.match_all_go 0 ("NEXT_PUBLIC_" +:+ x) = ["NEXT_PUBLIC_" +:+ x])
    as ->; [|done].
  change ("NEXT_PUBLIC_" +:+ x) with (String "N" ("EXT_PUBLIC_" +:+ x)) at 1.
  cbn [Regex.match_all_go].
  change (String "N" ("EXT_PUBLIC_" +:+ x)) with ("NEXT_PUBLIC_" +:+ x).
  rewrite (match_here_name _ Hx). f_equal.
  apply match_all_go_skip. rewrite !length_append. cbn. lia.
Qed.

Lemma startsWith_name (x : string) :
  JS.startsWith ("NEXT_PUBLIC_" +:+ x) "NEXT_PUBLIC_" = true.
Proof. apply prefix_append. Qed.

Lemma includes_name (x : string) :
  JS.includes ("NEXT_PUBLIC_" +:+ x) "NEXT_PUBLIC_" = true.
Proof. apply includes_prefix, prefix_append. Qed.

(** ** The traversal only appends *)

(** Induction over syntax trees, with the hypothesis for every child. *)
Lemma Node_ind' (P : Node -> Prop) :
  (forall value, P (Literal value)) ->
  (forall name, P (Identifier name)) ->
  (forall raw, P (TemplateElement raw)) ->
  (forall object property computed,
      P object -> P property -> P (MemberExpression object property computed)) ->
  (forall type children, Forall P children -> P (Other type children)) ->
  (forall name, P (PrivateIdentifier name)) ->
  forall n, P n.
Proof.
  intros HL HI HT HM HO HP. fix IH 1. intros [v|name|raw|o p c|t cs|pn].
  - apply HL.
  - apply HI.
  - apply HT.
  - apply HM; apply IH.
  - apply HO. induction cs as [|c cs IHcs]; constructor; [apply IH | apply IHcs].
  - apply HP.
Qed.

Lemma state_eq (a b : State) :
  reports a = reports b -> foundVariables a = foundVariables b -> a = b.
Proof. destruct a, b; cbn; by intros -> ->. Qed.

Lemma framed_id : framed (fun st => st).
Proof.
  intros st. apply state_eq; cbn;
    [by rewrite app_nil_r | by rewrite union_empty_l_L].
Qed.

Lemma framed_report node message : framed (report node message).
Proof.
  intros st. apply state_eq; cbn; [done | by rewrite union_empty_l_L].
Qed.

Lemma framed_found_add variable : framed (found_add variable).
Proof.
  intros st. apply state_eq; cbn;
    [by rewrite app_nil_r | by rewrite union_empty_r_L].
Qed.

Lemma framed_compose (f g : State -> State) :
  framed f -> framed g -> framed (fun st => g (f st)).
Proof.
  intros Hf Hg st. rewrite (Hg (f st)), (Hg (f initial)), (Hf st).
  apply state_eq; cbn;
    [by rewrite app_assoc | by rewrite union_assoc_L].
Qed.

Lemma framed_fold {A} (step : State -> A -> State) (l : list A) :
  (forall x, framed (fun st => step st x)) ->
  framed (fun st => fold_left step l st).
Proof.
  intros Hstep. induction l as [|x l IH]; cbn; [apply framed_id|].
  apply (framed_compose (fun st => step st x) (fun st => fold_left step l st));
    [apply Hstep | apply IH].
Qed.

Lemma framed_ext (f g : State -> State) :
  (forall st, f st = g st) -> framed f -> framed g.
Proof. intros E Hf st. rewrite <- !E. apply Hf. Qed.

Create HintDb frame.
#[local] Hint Resolve framed_id framed_report framed_found_add : frame.

Ltac frame_cases :=
  repeat match goal with
    | |- framed (fun st => if ?b then _ else _) => destruct b
    | |- framed (fun st => match ?o with Some _ => _ | None => _ end) =>
        destruct o
    | |- framed (fun st => report ?n ?m (?f st)) =>
        apply (framed_compose f (report n m))
    end; auto with frame.

Lemma framed_checkJustification variable justifications node :
  framed (RuleA.checkJustification variable justifications node).
Proof. unfold RuleA.checkJustification. frame_cases. Qed.

Lemma framed_Literal_each justifications node variable :
  framed (fun st => RuleB.Literal_each justifications node st variable).
Proof. unfold RuleB.Literal_each. frame_cases. Qed.

Lemma framed_TemplateElement_each justifications node variable :
  framed (fun st => RuleB.TemplateElement_each justifications node st variable).
Proof. unfold RuleB.TemplateElement_each. frame_cases. Qed.

Lemma framed_enter_A justifications node :
  framed (RuleA.enter justifications node).
Proof.
  destruct node as [[s|]|name|raw|o p c|t cs|pn];
    unfold RuleA.enter, RuleA.visit_Literal, RuleA.visit_Identifier,
      RuleA.visit_TemplateElement, RuleA.visit_MemberExpression.
  - frame_cases. apply framed_fold. intros x. apply framed_checkJustification.
  - apply framed_id.
  - frame_cases. apply framed_checkJustification.
  - frame_cases. apply framed_fold. intros x. apply framed_checkJustification.
  - apply (framed_compose
             (fun st => match p with
                        | Identifier name =>
                            if RuleA.on_process_env o
                               && JS.startsWith name "NEXT_PUBLIC_"
                            then RuleA.checkJustification name justifications
                                   (MemberExpression o p c) st
                            else st
                        | _ => st
                        end)
             (fun st => match p with
                        | Literal (LString value) =>
                            if RuleA.on_process_env o
                               && JS.startsWith value "NEXT_PUBLIC_"
                            then RuleA.checkJustification value justifications
                                   (MemberExpression o p c) st
                            else st
                        | _ => st
                        end)).
    + destruct p; frame_cases. apply framed_checkJustification.
    + destruct p as [[v|]| | | | |]; frame_cases. apply framed_checkJustification.
  - apply framed_id.
  - apply framed_id.
Qed.

Lemma framed_enter_B justifications node :
  framed (RuleB.enter justifications node).
Proof.
  destruct node as [[s|]|name|raw|o p c|t cs|pn];
    unfold RuleB.enter, RuleB.visit_Literal, RuleB.visit_Identifier,
      RuleB.visit_TemplateElement.
  - frame_cases. apply framed_fold. intros x. apply framed_Literal_each.
  - apply framed_id.
  - frame_cases.
  - frame_cases. apply framed_fold. intros x. apply framed_TemplateElement_each.
  - apply framed_id.
  - apply framed_id.
  - apply framed_id.
Qed.

Lemma framed_traverse (enter : Node -> State -> State) :
  (forall n, framed (enter n)) -> forall n, framed (traverse enter n).
Proof.
  intros He n. induction n as [v|name|raw|o p c IHo IHp|t cs IH|pn] using Node_ind';
    cbn [traverse]; try apply He.
  - apply (framed_compose (fun st => traverse enter o (enter _ st))
             (traverse enter p)); [|apply IHp].
    apply (framed_compose (enter _) (traverse enter o)); [apply He | apply IHo].
  - apply (framed_compose (enter _)
             (fun st => fold_left (fun st c => traverse enter c st) cs st));
      [apply He|].
    induction IH as [|c cs Hc _ IHcs]; cbn; [apply framed_id|].
    apply (framed_compose (traverse enter c)
             (fun st => fold_left (fun st c => traverse enter c st) cs st));
      [apply Hc | apply IHcs].
Qed.

(** ** What one validation reports *)

Lemma checkJustification_spec variable justifications node st :
  RuleA.checkJustification variable justifications node st
  = extend st
      (map (fun m => {| diag_node := node; diag_message := m |})
         (verdict 20 justifications variable))
      {[variable]}.
Proof.
  unfold RuleA.checkJustification, verdict.
  destruct (justifications !! variable) as [text|];
    [destruct (negb (JS.truthy text)); [|destruct (String.length text <? 20)]|];
    apply state_eq; cbn; by rewrite ?app_nil_r.
Qed.

Lemma visit_Identifier_B_spec justifications node name st :
  JS.startsWith name "NEXT_PUBLIC_" = true ->
  RuleB.visit_Identifier justifications node name st
  = extend st
      (map (fun m => {| diag_node := node; diag_message := m |})
         (verdict 8 justifications name))
      {[name]}.
Proof.
  intros Hp. unfold RuleB.visit_Identifier, verdict. rewrite Hp.
  destruct (justifications !! name) as [text|];
    [destruct (negb (JS.truthy text)); [|destruct (String.length text <? 8)]|];
    apply state_eq; cbn; by rewrite ?app_nil_r.
Qed.

Lemma Literal_each_spec justifications node st variable :
  RuleB.Literal_each justifications node st variable
  = extend st
      (map (fun m => {| diag_node := node; diag_message := m |})
         (verdict 8 justifications variable))
      {[variable]}.
Proof.
  unfold RuleB.Literal_each, verdict.
  destruct (justifications !! variable) as [text|];
    [destruct (negb (JS.truthy text)); [|destruct (String.length text <? 8)]|];
    apply state_eq; cbn; by rewrite ?app_nil_r.
Qed.

Lemma TemplateElement_each_spec justifications node st variable :
  RuleB.TemplateElement_each justifications node st variable
  = extend st
      (map (fun m => {| diag_node := node; diag_message := m |})
         (verdict 8 justifications variable))
      {[variable]}.
Proof.
  unfold RuleB.TemplateElement_each, verdict.
  destruct (justifications !! variable) as [text|];
    [destruct (negb (JS.truthy text)); [|destruct (String.length text <? 8)]|];
    apply state_eq; cbn; by rewrite ?app_nil_r.
Qed.

Lemma messages_extend st (node : Node) (ms : list string) vs :
  messages
    (extend st (map (fun m => {| diag_node := node; diag_message := m |}) ms) vs)
  = messages st ++ ms.
Proof.
  unfold messages. cbn. rewrite map_app, map_map. cbn. by rewrite map_id.
Qed.

Lemma truthy_nonempty (text : string) : text <> "" -> JS.truthy text = true.
Proof. by destruct text. Qed.

(** ** Detection and validation (C1, C2, C6, C9) *)

(** C1, evaluated on the code of version A.  With no sidecar file, the file
    [const url = process.env.NEXT_PUBLIC_API_KEY;] gets two diagnostics that
    require a justification for [NEXT_PUBLIC_API_KEY], one reported by the
    [MemberExpression] visitor on the member expression and one by the
    [Identifier] visitor on its property; the computed form with a string
    literal between the brackets gets two as well, from the
    [MemberExpression] and the [Literal] visitors.  The rule's own test
    expects one error for each of the two files. *)
Theorem C1_member_access_reported_twice :
  snd (RuleA.lint Sample.bare_host ["proj"] None
         (Sample.const_decl "url" (Sample.static_access "NEXT_PUBLIC_API_KEY"))
         Sample.fresh_process)
  = Return
      [ {| diag_node := Sample.static_access "NEXT_PUBLIC_API_KEY";
           diag_message :=
             "NEXT_PUBLIC variable 'NEXT_PUBLIC_API_KEY' requires justification in .nextpublicrc file" |};
        {| diag_node := Identifier "NEXT_PUBLIC_API_KEY";
           diag_message :=
             "NEXT_PUBLIC variable 'NEXT_PUBLIC_API_KEY' requires justification in .nextpublicrc file" |} ]
  /\
  snd (RuleA.lint Sample.bare_host ["proj"] None
         (Sample.const_decl "key" (Sample.computed_access "NEXT_PUBLIC_API_KEY"))
         Sample.fresh_process)
  = Return
      [ {| diag_node := Sample.computed_access "NEXT_PUBLIC_API_KEY";
           diag_message :=
             "NEXT_PUBLIC variable 'NEXT_PUBLIC_API_KEY' requires justification in .nextpublicrc file" |};
        {| diag_node := Literal (LString "NEXT_PUBLIC_API_KEY");
           diag_message :=
             "NEXT_PUBLIC variable 'NEXT_PUBLIC_API_KEY' requires justification in .nextpublicrc file" |} ].
Proof. split; vm_compute; reflexivity. Qed.

(** The same two files under version B, which has no [MemberExpression]
    visitor, get one diagnostic each. *)
Example member_access_reported_once_B :
  map diag_message
    (RuleB.diagnostics
       (RuleB.lint Sample.bare_host ["proj"]
          (Sample.const_decl "url" (Sample.static_access "NEXT_PUBLIC_API_KEY"))))
  = [msg_requires "NEXT_PUBLIC_API_KEY"]
  /\
  map diag_message
    (RuleB.diagnostics
       (RuleB.lint Sample.bare_host ["proj"]
          (Sample.const_decl "key" (Sample.computed_access "NEXT_PUBLIC_API_KEY"))))
  = [msg_requires "NEXT_PUBLIC_API_KEY"].
Proof. split; vm_compute; reflexivity. Qed.

(** C2 as stated fails: an entry whose text is empty is present and shorter
    than either minimum, and the validation reports that the variable
    requires justification, not that its justification is too short. *)
Lemma C2_empty_text_counterexample :
  let justifications : JustificationStore := {[ "NEXT_PUBLIC_FLAG" := "" ]} in
  let node := Identifier "NEXT_PUBLIC_FLAG" in
  justifications !! "NEXT_PUBLIC_FLAG" = Some ""
  /\ String.length "" < 8
  /\ reports (RuleA.checkJustification "NEXT_PUBLIC_FLAG" justifications node initial)
     = [ {| diag_node := node; diag_message := msg_requires "NEXT_PUBLIC_FLAG" |} ]
  /\ reports (RuleB.visit_Identifier justifications node "NEXT_PUBLIC_FLAG" initial)
     = [ {| diag_node := node; diag_message := msg_requires "NEXT_PUBLIC_FLAG" |} ]
  /\ msg_requires "NEXT_PUBLIC_FLAG" <> msg_too_short "NEXT_PUBLIC_FLAG".
Proof.
  cbv zeta. split; [vm_compute; reflexivity|].
  split; [cbn; lia|].
  split; [vm_compute; reflexivity|].
  split; [vm_compute; reflexivity|].
  discriminate.
Qed.

(** C2, amended: for a detected variable whose entry in the store has a
    non-empty text, one validation reports exactly one too-short diagnostic
    when the text is shorter than the minimum (20 in version A, 8 in
    version B) and nothing when it is at least that long. *)
Theorem C2_nonempty_text_validated_by_length
  (justifications : JustificationStore) (s text : string) (node : Node)
  (st : State) :
  justifications !! s = Some text ->
  text <> "" ->
  let too_short := {| diag_node := node; diag_message := msg_too_short s |} in
  (String.length text < 20 ->
     reports (RuleA.checkJustification s justifications node st)
     = reports st ++ [too_short])
  /\ (20 <= String.length text ->
     reports (RuleA.checkJustification s justifications node st) = reports st)
  /\ (String.length text < 8 ->
     reports (RuleB.Literal_each justifications node st s)
     = reports st ++ [too_short]
     /\ reports (RuleB.TemplateElement_each justifications node st s)
        = reports st ++ [too_short]
     /\ (JS.startsWith s "NEXT_PUBLIC_" = true ->
         reports (RuleB.visit_Identifier justifications node s st)
         = reports st ++ [too_short]))
  /\ (8 <= String.length text ->
     reports (RuleB.Literal_each justifications node st s) = reports st
     /\ reports (RuleB.TemplateElement_each justifications node st s) = reports st
     /\ reports (RuleB.visit_Identifier justifications node s st) = reports st).
Proof.
  intros Hj Hne too_short.
  pose proof (truthy_nonempty _ Hne) as Ht.
  rewrite checkJustification_spec, Literal_each_spec, TemplateElement_each_spec.
  unfold verdict. rewrite Hj, Ht. cbn [negb].
  split; [|split; [|split]].
  - intros H. apply Nat.ltb_lt in H. by rewrite H.
  - intros H. apply Nat.ltb_ge in H. rewrite H. cbn. by rewrite app_nil_r.
  - intros H. apply Nat.ltb_lt in H. rewrite H.
    split; [done | split; [done|]].
    intros Hp. rewrite (visit_Identifier_B_spec _ _ _ _ Hp). unfold verdict.
    by rewrite Hj, Ht, H.
  - intros H. apply Nat.ltb_ge in H. rewrite H. cbn. rewrite app_nil_r.
    split; [done | split; [done|]].
    unfold RuleB.visit_Identifier.
    destruct (JS.startsWith s "NEXT_PUBLIC_"); [|done].
    by rewrite Hj, Ht, H.
Qed.

Lemma C2_nonempty_text_witness :
  let justifications : JustificationStore := {[ "NEXT_PUBLIC_FLAG" := "short" ]} in
  let node := Identifier "NEXT_PUBLIC_FLAG" in
  let too_short :=
    {| diag_node := node; diag_message := msg_too_short "NEXT_PUBLIC_FLAG" |} in
  (String.length "short" < 20 ->
     reports (RuleA.checkJustification "NEXT_PUBLIC_FLAG" justifications node initial)
     = reports initial ++ [too_short])
  /\ (20 <= String.length "short" ->
     reports (RuleA.checkJustification "NEXT_PUBLIC_FLAG" justifications node initial)
     = reports initial)
  /\ (String.length "short" < 8 ->
     reports (RuleB.Literal_each justifications node initial "NEXT_PUBLIC_FLAG")
     = reports initial ++ [too_short]
     /\ reports (RuleB.TemplateElement_each justifications node initial "NEXT_PUBLIC_FLAG")
        = reports initial ++ [too_short]
     /\ (JS.startsWith "NEXT_PUBLIC_FLAG" "NEXT_PUBLIC_" = true ->
         reports (RuleB.visit_Identifier justifications node "NEXT_PUBLIC_FLAG" initial)
         = reports initial ++ [too_short]))
  /\ (8 <= String.length "short" ->
     reports (RuleB.Literal_each justifications node initial "NEXT_PUBLIC_FLAG")
     = reports initial
     /\ reports (RuleB.TemplateElement_each justifications node initial "NEXT_PUBLIC_FLAG")
        = reports initial
     /\ reports (RuleB.visit_Identifier justifications node "NEXT_PUBLIC_FLAG" initial)
        = reports initial).
Proof.
  apply (C2_nonempty_text_validated_by_length
           {[ "NEXT_PUBLIC_FLAG" := "short" ]} "NEXT_PUBLIC_FLAG" "short"
           (Identifier "NEXT_PUBLIC_FLAG") initial).
  - vm_compute. reflexivity.
  - discriminate.
Defined.


(** The bare prefix and a lowercase name: neither matches the pattern of well-formed
    names, both pass the prefix test and are reported. *)
Example bare_and_lowercase_names_unmatched :
  Regex.match_g "NEXT_PUBLIC_" = None
  /\ Regex.match_g "NEXT_PUBLIC_apiKey" = None.
Proof. split; reflexivity. Qed.


(** What the rule does with one member access on [process.env], in either
    form, for a well-formed name: version A validates the name twice,
    version B once. *)
Lemma static_access_A justifications x st :
  traverse (RuleA.enter justifications)
    (Sample.static_access ("NEXT_PUBLIC_" +:+ x)) st
  = RuleA.checkJustification ("NEXT_PUBLIC_" +:+ x) justifications
      (Identifier ("NEXT_PUBLIC_" +:+ x))
      (RuleA.checkJustification ("NEXT_PUBLIC_" +:+ x) justifications
         (Sample.static_access ("NEXT_PUBLIC_" +:+ x)) st).
Proof.
  cbn [traverse Sample.static_access Sample.process_env RuleA.enter].
  unfold RuleA.visit_MemberExpression, RuleA.visit_Identifier.
  rewrite !startsWith_name. reflexivity.
Qed.

Lemma computed_access_A justifications x st :
  valid_suffix x ->
  traverse (RuleA.enter justifications)
    (Sample.computed_access ("NEXT_PUBLIC_" +:+ x)) st
  = RuleA.checkJustification ("NEXT_PUBLIC_" +:+ x) justifications
      (Literal (LString ("NEXT_PUBLIC_" +:+ x)))
      (RuleA.checkJustification ("NEXT_PUBLIC_" +:+ x) justifications
         (Sample.computed_access ("NEXT_PUBLIC_" +:+ x)) st).
Proof.
  intros Hx.
  cbn [traverse Sample.computed_access Sample.process_env RuleA.enter].
  unfold RuleA.visit_MemberExpression, RuleA.visit_Identifier,
    RuleA.visit_Literal.
  rewrite !startsWith_name, includes_name, (match_g_name _ Hx). reflexivity.
Qed.

Lemma static_access_B justifications x st :
  traverse (RuleB.enter justifications)
    (Sample.static_access ("NEXT_PUBLIC_" +:+ x)) st
  = RuleB.visit_Identifier justifications (Identifier ("NEXT_PUBLIC_" +:+ x))
      ("NEXT_PUBLIC_" +:+ x) st.
Proof. reflexivity. Qed.

Lemma computed_access_B justifications x st :
  valid_suffix x ->
  traverse (RuleB.enter justifications)
    (Sample.computed_access ("NEXT_PUBLIC_" +:+ x)) st
  = RuleB.Literal_each justifications (Literal (LString ("NEXT_PUBLIC_" +:+ x)))
      st ("NEXT_PUBLIC_" +:+ x).
Proof.
  intros Hx.
  cbn [traverse Sample.computed_access Sample.process_env RuleB.enter].
  unfold RuleB.visit_Identifier, RuleB.visit_Literal.
  rewrite includes_name, (match_g_name _ Hx). reflexivity.
Qed.

(** Two nodes that produce the same messages and the same found names from
    every state can be exchanged among the children of a node. *)
Lemma exchange_child (enter : Node -> State -> State) (a b : Node) :
  (forall n, framed (enter n)) ->
  (forall type children st, enter (Other type children) st = st) ->
  (forall st,
      messages (traverse enter a st) = messages (traverse enter b st)
      /\ foundVariables (traverse enter a st)
         = foundVariables (traverse enter b st)) ->
  forall type before after st,
    messages (traverse enter (Other type (before ++ [a] ++ after)) st)
    = messages (traverse enter (Other type (before ++ [b] ++ after)) st)
    /\ foundVariables (traverse enter (Other type (before ++ [a] ++ after)) st)
       = foundVariables (traverse enter (Other type (before ++ [b] ++ after)) st).
Proof.
  intros Hframed Hother Hab type before after st.
  cbn [traverse]. rewrite !Hother, !fold_left_app. cbn [fold_left].
  set (s1 := fold_left (fun st c => traverse enter c st) before st).
  destruct (Hab s1) as [Hm Hf].
  pose proof (framed_fold (fun st c => traverse enter c st) after
                (fun c => framed_traverse enter Hframed c)) as Hrest.
  cbv beta in Hrest.
  rewrite (Hrest (traverse enter a s1)), (Hrest (traverse enter b s1)).
  unfold messages in *. cbn. rewrite !map_app, Hm, Hf. done.
Qed.

(** C6: for every well-formed variable name and every justification store,
    a file with [process.env.NEXT_PUBLIC_X] and the file that has the
    computed access with the string literal in its place get the same
    diagnostics for the variable (same number, same messages, same order)
    and the same found names, in both versions of the rule. *)
Theorem C6_static_and_computed_access_alike
  (justifications : JustificationStore) (x type : string)
  (before after : list Node) (st : State) :
  valid_suffix x ->
  let name := "NEXT_PUBLIC_" +:+ x in
  let with_static := Other type (before ++ [Sample.static_access name] ++ after) in
  let with_computed :=
    Other type (before ++ [Sample.computed_access name] ++ after) in
  (messages (traverse (RuleA.enter justifications) with_static st)
   = messages (traverse (RuleA.enter justifications) with_computed st)
   /\ foundVariables (traverse (RuleA.enter justifications) with_static st)
      = foundVariables (traverse (RuleA.enter justifications) with_computed st))
  /\
  (messages (traverse (RuleB.enter justifications) with_static st)
   = messages (traverse (RuleB.enter justifications) with_computed st)
   /\ foundVariables (traverse (RuleB.enter justifications) with_static st)
      = foundVariables (traverse (RuleB.enter justifications) with_computed st)).
Proof.
  intros Hx name with_static with_computed.
  subst name with_static with_computed. split.
  - apply exchange_child;
      [apply framed_enter_A | reflexivity |].
    intros s. rewrite static_access_A, (computed_access_A _ _ _ Hx).
    rewrite !checkJustification_spec, !messages_extend. done.
  - apply exchange_child;
      [apply framed_enter_B | reflexivity |].
    intros s. rewrite static_access_B, (computed_access_B _ _ _ Hx).
    rewrite (visit_Identifier_B_spec _ _ _ _ (startsWith_name x)).
    rewrite Literal_each_spec, !messages_extend. done.
Qed.

Lemma C6_static_and_computed_access_witness :
  let justifications : JustificationStore := {[ "NEXT_PUBLIC_FOO" := "short" ]} in
  let with_static :=
    Other "Program" ([Identifier "a"] ++ [Sample.static_access "NEXT_PUBLIC_FOO"]
                       ++ [Identifier "NEXT_PUBLIC_BAR"]) in
  let with_computed :=
    Other "Program" ([Identifier "a"] ++ [Sample.computed_access "NEXT_PUBLIC_FOO"]
                       ++ [Identifier "NEXT_PUBLIC_BAR"]) in
  (messages (traverse (RuleA.enter justifications) with_static initial)
   = messages (traverse (RuleA.enter justifications) with_computed initial)
   /\ foundVariables (traverse (RuleA.enter justifications) with_static initial)
      = foundVariables (traverse (RuleA.enter justifications) with_computed initial))
  /\
  (messages (traverse (RuleB.enter justifications) with_static initial)
   = messages (traverse (RuleB.enter justifications) with_computed initial)
   /\ foundVariables (traverse (RuleB.enter justifications) with_static initial)
      = foundVariables (traverse (RuleB.enter justifications) with_computed initial)).
Proof.
  apply (C6_static_and_computed_access_alike
           {[ "NEXT_PUBLIC_FOO" := "short" ]} "FOO" "Program"
           [Identifier "a"] [Identifier "NEXT_PUBLIC_BAR"] initial).
  split; [discriminate | reflexivity].
Defined.

(** Outside the well-formed names the two forms differ: for a lowercase
    suffix the pattern finds nothing in the string literal. *)
Example lowercase_suffix_forms_differ :
  messages (traverse (RuleA.enter ∅) (Sample.static_access "NEXT_PUBLIC_apiKey") initial)
  = [msg_requires "NEXT_PUBLIC_apiKey"; msg_requires "NEXT_PUBLIC_apiKey"]
  /\ messages (traverse (RuleA.enter ∅) (Sample.computed_access "NEXT_PUBLIC_apiKey") initial)
     = [msg_requires "NEXT_PUBLIC_apiKey"].
Proof. split; vm_compute; reflexivity. Qed.

(** ** The justification-store loader (C3, C4, C10) *)

Lemma cons_neq_self {A} (x : A) (l : list A) : l <> x :: l.
Proof. intros E. apply (f_equal length) in E. cbn in E. lia. Qed.

Lemma existsSync_None h p : fs h !! p = None -> existsSync h p = false.
Proof. unfold existsSync. by intros ->. Qed.

Lemma existsSync_Some h p e : fs h !! p = Some e -> existsSync h p = true.
Proof. unfold existsSync. by intros ->. Qed.

(** One turn of the loop; its [break] is never taken. *)
Lemma search_cons h c parent :
  RuleA.search h (c :: parent)
  = if existsSync h (rc_file (c :: parent))
    then ([], RuleA.read_and_parse h (rc_file (c :: parent)))
    else RuleA.search h parent.
Proof.
  cbn [RuleA.search]. cbv zeta. unfold Path.join, rc_file.
  destruct (existsSync h (".nextpublicrc" :: c :: parent)); [done|].
  destruct (decide (parent = c :: parent)) as [E|_]; [|done].
  by destruct (cons_neq_self c parent).
Qed.

Lemma search_none h cwd :
  (forall d, d ∈ self_and_ancestors cwd -> fs h !! rc_file d = None) ->
  RuleA.search h cwd = ([RuleA.no_file_message], Return ∅).
Proof.
  induction cwd as [|c parent IH]; intros Hnone; [done|].
  rewrite search_cons.
  rewrite (existsSync_None h (rc_file (c :: parent)))
    by (apply Hnone; cbn; apply list_elem_of_here).
  apply IH. intros d Hd. apply Hnone. cbn. by apply list_elem_of_further.
Qed.

Lemma search_first h cwd before d after e :
  self_and_ancestors cwd = before ++ d :: after ->
  (forall d', d' ∈ before -> fs h !! rc_file d' = None) ->
  fs h !! rc_file d = Some e ->
  RuleA.search h cwd = ([], RuleA.read_and_parse h (rc_file d)).
Proof.
  revert before. induction cwd as [|c parent IH]; intros before Hpath Hbefore He.
  - by destruct before.
  - rewrite search_cons.
    destruct before as [|b before]; cbn in Hpath; injection Hpath as Hhd Htl.
    + subst d. by rewrite (existsSync_Some h _ e He).
    + subst b.
      rewrite (existsSync_None h (rc_file (c :: parent)))
        by (apply Hbefore, list_elem_of_here).
      apply (IH before Htl); [|done].
      intros d' Hd'. by apply Hbefore, list_elem_of_further.
Qed.

Lemma read_and_parse_file h p content :
  fs h !! p = Some (File content) ->
  RuleA.read_and_parse h p = Return (RuleA.parse_content h content).
Proof. unfold RuleA.read_and_parse, readFileSync. by intros ->. Qed.

Lemma readJustificationsFile_search h cwd rcPath :
  explicit_unused h cwd rcPath ->
  RuleA.readJustificationsFile h cwd rcPath = RuleA.search h cwd.
Proof.
  unfold explicit_unused, RuleA.readJustificationsFile.
  destruct (RuleA.customRcPath cwd rcPath) as [p|]; [|done].
  intros Hp. by rewrite (existsSync_None h p Hp).
Qed.

(** C3: the loader of version A.  An explicit path that is configured and
    leads to a file makes the loader read and parse that file; otherwise the
    first [.nextpublicrc] on the search path from the working directory
    towards the root is read and parsed; when there is none on the search
    path the result is the empty store and nothing is thrown. *)
Theorem C3_loader_explicit_path_then_upward_search
  (h : Host) (cwd : path) (rcPath : option string) :
  (forall p content,
      RuleA.customRcPath cwd rcPath = Some p ->
      fs h !! p = Some (File content) ->
      RuleA.readJustificationsFile h cwd rcPath
      = ([], Return (RuleA.parse_content h content)))
  /\ (explicit_unused h cwd rcPath ->
      forall before d after content,
        self_and_ancestors cwd = before ++ d :: after ->
        (forall d', d' ∈ before -> fs h !! rc_file d' = None) ->
        fs h !! rc_file d = Some (File content) ->
        RuleA.readJustificationsFile h cwd rcPath
        = ([], Return (RuleA.parse_content h content)))
  /\ (explicit_unused h cwd rcPath ->
      (forall d, d ∈ self_and_ancestors cwd -> fs h !! rc_file d = None) ->
      RuleA.readJustificationsFile h cwd rcPath
      = ([RuleA.no_file_message], Return ∅)).
Proof.
  split; [|split].
  - intros p content Hp Hfile. unfold RuleA.readJustificationsFile.
    rewrite Hp, (existsSync_Some h p _ Hfile).
    by rewrite (read_and_parse_file h p content Hfile).
  - intros Hun before d after content Hpath Hbefore Hfile.
    rewrite (readJustificationsFile_search h cwd rcPath Hun).
    rewrite (search_first h cwd before d after _ Hpath Hbefore Hfile).
    by rewrite (read_and_parse_file h _ content Hfile).
  - intros Hun Hnone.
    rewrite (readJustificationsFile_search h cwd rcPath Hun).
    by apply search_none.
Qed.

Lemma C3_loader_witness :
  RuleA.readJustificationsFile (Sample.host_with Sample.project_files)
    Sample.app_dir (Some "../../conf/./rc")
  = ([], Return (RuleA.parse_content (Sample.host_with Sample.project_files)
                   "# nothing justified yet"))
  /\ RuleA.readJustificationsFile (Sample.host_with Sample.project_files)
       Sample.app_dir None
     = ([], Return (RuleA.parse_content (Sample.host_with Sample.project_files)
                      Sample.api_url_line))
  /\ RuleA.readJustificationsFile Sample.bare_host Sample.app_dir (Some "missing")
     = ([RuleA.no_file_message], Return ∅).
Proof.
  split; [|split].
  - apply (proj1 (C3_loader_explicit_path_then_upward_search
                    (Sample.host_with Sample.project_files) Sample.app_dir
                    (Some "../../conf/./rc")) ["rc"; "conf"; "home"]);
      vm_compute; reflexivity.
  - apply (proj1 (proj2 (C3_loader_explicit_path_then_upward_search
                           (Sample.host_with Sample.project_files)
                           Sample.app_dir None)) I
             [["app"; "proj"; "home"]; ["proj"; "home"]] ["home"] []).
    + reflexivity.
    + intros d' Hd'.
      apply elem_of_cons in Hd' as [->|Hd']; [vm_compute; reflexivity|].
      apply elem_of_cons in Hd' as [->|Hd']; [vm_compute; reflexivity|].
      by apply elem_of_nil in Hd'.
    + vm_compute; reflexivity.
  - apply (proj2 (proj2 (C3_loader_explicit_path_then_upward_search
                           Sample.bare_host Sample.app_dir (Some "missing")))).
    + vm_compute; reflexivity.
    + intros d _. apply lookup_empty.
Defined.

(** The root is not examined: the search gives the same result on two hosts
    that differ only in what the root directory holds under the name
    [.nextpublicrc]. *)
Lemma search_ignores_root h h' cwd :
  (forall content, JSON_parse h content = JSON_parse h' content) ->
  (forall p, p <> rc_file Path.root -> fs h !! p = fs h' !! p) ->
  RuleA.search h cwd = RuleA.search h' cwd.
Proof.
  intros Hjson Hfs. induction cwd as [|c parent IH]; [done|].
  rewrite !search_cons, IH.
  assert (fs h !! rc_file (c :: parent) = fs h' !! rc_file (c :: parent)) as E
    by (apply Hfs; discriminate).
  unfold existsSync, RuleA.read_and_parse, readFileSync, RuleA.parse_content.
  rewrite E. destruct (fs h' !! rc_file (c :: parent)) as [[content|]|]; try done.
  by rewrite Hjson.
Qed.

(** C10: in the upward search of version A the root directory itself is
    never examined.  When the only [.nextpublicrc] on the path from the
    working directory upwards lies in the filesystem root, the loader
    returns the empty store. *)
Theorem C10_sidecar_in_root_is_not_found
  (h : Host) (cwd : path) (e : fentry) :
  fs h !! rc_file Path.root = Some e ->
  (forall d, d ∈ self_and_ancestors cwd -> fs h !! rc_file d = None) ->
  RuleA.readJustificationsFile h cwd None
  = ([RuleA.no_file_message], Return ∅).
Proof.
  intros _ Hnone. rewrite readJustificationsFile_search by exact I.
  by apply search_none.
Qed.

Lemma C10_sidecar_in_root_witness :
  RuleA.readJustificationsFile (Sample.host_with Sample.root_only_files)
    Sample.app_dir None
  = ([RuleA.no_file_message], Return ∅).
Proof.
  apply (C10_sidecar_in_root_is_not_found
           (Sample.host_with Sample.root_only_files) Sample.app_dir
           (File Sample.api_url_line)).
  - vm_compute; reflexivity.
  - intros d Hd.
    apply elem_of_cons in Hd as [->|Hd]; [vm_compute; reflexivity|].
    apply elem_of_cons in Hd as [->|Hd]; [vm_compute; reflexivity|].
    apply elem_of_cons in Hd as [->|Hd]; [vm_compute; reflexivity|].
    by apply elem_of_nil in Hd.
Defined.

(** The working directory may be the root itself; nothing is examined. *)
Example root_as_working_directory :
  RuleA.readJustificationsFile (Sample.host_with Sample.root_only_files)
    Path.root None
  = ([RuleA.no_file_message], Return ∅).
Proof. reflexivity. Qed.

(** Version B treats a sidecar file that exists but cannot be read like a
    missing one. *)
Lemma unreadable_is_empty_B (h : Host) (cwd : path) :
  fs h !! rc_file cwd = Some Unreadable ->
  RuleB.readJustificationsFile h cwd = ∅.
Proof.
  intros Hu. unfold RuleB.readJustificationsFile.
  change (Path.resolve cwd ".nextpublicrc") with (rc_file cwd).
  unfold existsSync, readFileSync. by rewrite Hu.
Qed.

(** Version A lets the failed read escape. *)
Lemma unreadable_throws_A (h : Host) (c : string) (parent : path) :
  fs h !! rc_file (c :: parent) = Some Unreadable ->
  RuleA.readJustificationsFile h (c :: parent) None = ([], Throws ReadError).
Proof.
  intros Hu. rewrite readJustificationsFile_search by exact I.
  rewrite search_cons, (existsSync_Some h _ _ Hu).
  unfold RuleA.read_and_parse, readFileSync. by rewrite Hu.
Qed.

(** C4, evaluated on the code.  With an unreadable [/proj/.nextpublicrc]
    and the working directory [/proj], the loader of version A throws the
    read error and the run of the rule ends with it; the loader of version B
    returns the empty store for the same host, and its run reports the
    variable as unjustified. *)
Theorem C4_unreadable_sidecar_escapes_in_A :
  RuleA.readJustificationsFile (Sample.host_with Sample.unreadable_files)
    ["proj"] None
  = ([], Throws ReadError)
  /\ snd (RuleA.lint (Sample.host_with Sample.unreadable_files) ["proj"] None
            (Sample.const_decl "url" (Identifier "NEXT_PUBLIC_API_URL"))
            Sample.fresh_process)
     = Throws ReadError
  /\ RuleB.readJustificationsFile (Sample.host_with Sample.unreadable_files)
       ["proj"]
     = ∅
  /\ map diag_message
       (RuleB.diagnostics
          (RuleB.lint (Sample.host_with Sample.unreadable_files) ["proj"]
             (Sample.const_decl "url" (Identifier "NEXT_PUBLIC_API_URL"))))
     = [msg_requires "NEXT_PUBLIC_API_URL"].
Proof.
  split; [|split; [|split]].
  - vm_compute; reflexivity.
  - vm_compute; reflexivity.
  - apply unreadable_is_empty_B. vm_compute; reflexivity.
  - vm_compute; reflexivity.
Qed.

(** ** Parsing the sidecar file (C5) *)

Lemma unsnoc_snoc (s : string) (l : ascii) :
  Regex.unsnoc (s +:+ String l "") = Some (s, l).
Proof.
  induction s as [|c s IH]; [done|].
  rewrite append_cons. cbn. by rewrite IH.
Qed.

Lemma unsnoc_spec (s i : string) (l : ascii) :
  Regex.unsnoc s = Some (i, l) -> s = i +:+ String l "".
Proof.
  revert i. induction s as [|c s IH]; intros i; cbn; [done|].
  destruct (Regex.unsnoc s) as [[i' l']|] eqn:E.
  - intros [= <- <-]. by rewrite append_cons, <- (IH i' eq_refl).
  - intros [= <- <-]. destruct s as [|c' s]; [done|].
    cbn in E. by destruct (Regex.unsnoc s) as [[? ?]|].
Qed.

Lemma eqb_EQ (c : ascii) : Regex.not_eq_sign c = false -> c = Regex.EQ.
Proof.
  unfold Regex.not_eq_sign. intros H. apply negb_false_iff in H.
  by apply Ascii.eqb_eq.
Qed.

Lemma match_line_spec (line key value : string) :
  Regex.match_line line = Some (key, value) <-> key_value_line line key value.
Proof.
  unfold Regex.match_line, key_value_line. split.
  - destruct (JS.span Regex.not_eq_sign line) as [k rest] eqn:Hspan.
    apply span_spec in Hspan as (-> & Hk & Hrest).
    destruct k as [|k0 k]; [done|].
    destruct rest as [|e [|q rest]]; try done.
    destruct (Ascii.eqb e Regex.EQ) eqn:He; [|done].
    destruct (Ascii.eqb q Regex.DQ) eqn:Hq; [|done]. cbn [andb].
    destruct (Regex.unsnoc rest) as [[v l]|] eqn:Hu; [|done].
    destruct (Ascii.eqb l Regex.DQ) eqn:Hl; [|done].
    destruct (Regex.all_chars Regex.is_dot v) eqn:Hv; [|done]. cbn [andb].
    intros [= <- <-].
    apply Ascii.eqb_eq in He, Hq, Hl. subst e q l.
    apply unsnoc_spec in Hu as ->. done.
  - intros (-> & Hne & Hk & Hv).
    rewrite (span_unique Regex.not_eq_sign key _ Hk) by reflexivity.
    destruct key as [|k0 key]; [done|].
    rewrite !Ascii.eqb_refl, unsnoc_snoc, Ascii.eqb_refl, Hv. done.
Qed.

Lemma truthy_false (s : string) : JS.truthy s = false <-> s = "".
Proof. by destruct s. Qed.

Lemma set_property_other (key value : string) (object : JustificationStore) :
  key <> "__proto__" -> set_property key value object = <[key := value]> object.
Proof. intros H. unfold set_property. by destruct (decide (key = "__proto__")). Qed.

Lemma set_property_proto (value : string) (object : JustificationStore) :
  set_property "__proto__" value object = object.
Proof. reflexivity. Qed.

(** C5: the content of the sidecar file is given to [JSON.parse] first, and
    its result is the store when it succeeds; exactly when it fails, the
    content is parsed line by line.  There, a line that is neither blank nor
    a comment and has the shape [KEY=Q VALUE Q] adds the entry from the
    trimmed key to the trimmed value, and every other line leaves the store
    as it is.  The keys are the names of variables; the one key the
    assignment of JavaScript does not store, [__proto__], is not among
    them. *)
Theorem C5_json_first_then_lines :
  (forall (h : Host) content justifications,
      JSON_parse h content = Some justifications ->
      RuleA.parse_content h content = justifications)
  /\ (forall (h : Host) content,
      JSON_parse h content = None ->
      RuleA.parse_content h content
      = fold_left RuleA.parse_line (JS.split Regex.LF content) ∅)
  /\ (forall (justifications : JustificationStore) line key value,
      ~ skipped_line line ->
      key_value_line line key value ->
      JS.trim key <> "__proto__" ->
      RuleA.parse_line justifications line
      = <[JS.trim key := JS.trim value]> justifications)
  /\ (forall (justifications : JustificationStore) line,
      skipped_line line \/ ~ (exists key value, key_value_line line key value) ->
      RuleA.parse_line justifications line = justifications).
Proof.
  split; [|split; [|split]].
  - intros h content j Hj. unfold RuleA.parse_content. by rewrite Hj.
  - intros h content Hj. unfold RuleA.parse_content. by rewrite Hj.
  - intros j line key value Hskip Hkv Hkey. unfold RuleA.parse_line.
    destruct (JS.truthy (JS.trim line)) eqn:Ht;
      [|destruct Hskip; left; by apply truthy_false].
    destruct (JS.startsWith (JS.trim line) "#") eqn:Hc;
      [destruct Hskip; by right|].
    cbn [negb orb]. apply match_line_spec in Hkv. rewrite Hkv.
    by apply set_property_other.
  - intros j line [[Hb|Hc]|Hno]; unfold RuleA.parse_line.
    + by rewrite Hb.
    + rewrite Hc. by rewrite orb_true_r.
    + destruct (negb (JS.truthy (JS.trim line))
                || JS.startsWith (JS.trim line) "#"); [done|].
      destruct (Regex.match_line line) as [[key value]|] eqn:Hm; [|done].
      destruct Hno. exists key, value. by apply match_line_spec.
Qed.

(** A line whose key is [__proto__] has the shape of an entry and adds
    none: the assignment does not create a property of that name. *)
Example proto_line_adds_no_entry :
  key_value_line (Sample.entry_line "__proto__" "x") "__proto__" "x"
  /\ ~ skipped_line (Sample.entry_line "__proto__" "x")
  /\ forall justifications : JustificationStore,
      RuleA.parse_line justifications (Sample.entry_line "__proto__" "x")
      = justifications.
Proof.
  split; [by repeat split|]. split.
  - intros [H|H]; vm_compute in H; discriminate.
  - intros j. reflexivity.
Qed.

(** A file in the simple format with a comment, a blank line, two lines
    that do not have the shape, and two entries. *)
Example parseSimpleFormat_sample :
  RuleA.parseSimpleFormat
    (Sample.unlines
       [ "# justifications";
         "";
         "NEXT_PUBLIC_A = x";
         Sample.entry_line " NEXT_PUBLIC_B " "  because  ";
         "=";
         Sample.entry_line "NEXT_PUBLIC_C" "" ])
  = <["NEXT_PUBLIC_C" := ""]> (<["NEXT_PUBLIC_B" := "because"]> ∅).
Proof. vm_compute. reflexivity. Qed.

(** The copy of the line parser inside the loader of version B is the same
    function. *)
Lemma parse_line_B_A justifications line :
  RuleB.parse_line justifications line = RuleA.parse_line justifications line.
Proof. reflexivity. Qed.

Lemma C5_json_first_then_lines_witness :
  RuleA.parse_line ∅ Sample.api_url_line
  = <[JS.trim "NEXT_PUBLIC_API_URL" :=
        JS.trim "This URL is public because it is necessary for client API calls"]> ∅
  /\ RuleA.parse_line ∅ "  # NEXT_PUBLIC_API_URL" = ∅
  /\ RuleA.parse_content Sample.json_host "{}" = ∅
  /\ RuleA.parse_content Sample.json_host "# no JSON"
     = fold_left RuleA.parse_line (JS.split Regex.LF "# no JSON") ∅.
Proof.
  split; [|split; [|split]].
  - apply (proj1 (proj2 (proj2 C5_json_first_then_lines))).
    + intros [H|H]; vm_compute in H; discriminate.
    + repeat split. discriminate.
    + vm_compute. discriminate.
  - apply (proj2 (proj2 (proj2 C5_json_first_then_lines))).
    left. right. reflexivity.
  - apply (proj1 C5_json_first_then_lines). reflexivity.
  - apply (proj1 (proj2 C5_json_first_then_lines)). reflexivity.
Defined.

(** ** The end of a file visit and repeated runs (C7, C8) *)

(** The diagnostics of a run of version A are those of the traversal with
    the loaded store, whatever the process-wide state is: at the end of
    [create] the global object exists, so the [Program:exit] visitor does
    not fail. *)
Lemma lint_diagnostics_A h cwd rcPath program p :
  snd (RuleA.lint h cwd rcPath program p)
  = match snd (RuleA.readJustificationsFile h cwd rcPath) with
    | Return justifications =>
        Return (reports (traverse (RuleA.enter justifications) program initial))
    | Throws e => Throws e
    end.
Proof.
  unfold RuleA.lint, RuleA.create.
  destruct (RuleA.readJustificationsFile h cwd rcPath) as [lines [j|e]]; [|done].
  cbn [snd].
  destruct (RuleA.eslintPluginNextPublic (RuleA.log lines p)) as [g|] eqn:E;
    unfold RuleA.visit_Program_exit; [by rewrite E | done].
Qed.

Lemma lint_console_A h cwd rcPath program p :
  RuleA.console (fst (RuleA.lint h cwd rcPath program p))
  = RuleA.console p ++ fst (RuleA.readJustificationsFile h cwd rcPath).
Proof.
  unfold RuleA.lint, RuleA.create.
  destruct (RuleA.readJustificationsFile h cwd rcPath) as [lines [j|e]]; [|done].
  cbn [fst].
  destruct (RuleA.eslintPluginNextPublic (RuleA.log lines p)) as [g|] eqn:E;
    unfold RuleA.visit_Program_exit; [by rewrite E | done].
Qed.

(** C7 as stated fails.  Version B prints nothing at the end of a file in
    which no variable was found, and version A prints nothing at the end of
    a file even when it found one. *)
Lemma C7_no_summary_counterexample :
  (let run :=
     RuleB.lint Sample.bare_host ["proj"]
       (Sample.const_decl "normalVar" (Literal (LString "This is a normal variable"))) in
   RuleB.console run = [] /\ RuleB.diagnostics run = [])
  /\
  (let run :=
     RuleA.lint (Sample.host_with Sample.project_files) Sample.app_dir None
       (Sample.const_decl "url" (Sample.static_access "NEXT_PUBLIC_API_URL"))
       Sample.fresh_process in
   RuleA.console (fst run) = [] /\ snd run = Return []).
Proof. split; split; vm_compute; reflexivity. Qed.

(** C7, amended.  At the end of a file, version B prints one summary line
    with the number of unique names found in the file when that number is
    positive, and nothing when it is zero.  Version A prints nothing at the
    end of a file (a run prints only what the loader prints) and adds the
    names found in the file to the process-wide set; the listener for the
    exit of the process prints the size of that set and empties it. *)
Theorem C7_summary_at_end_of_file :
  (forall (h : Host) cwd program,
      let found :=
        foundVariables
          (traverse (RuleB.enter (RuleB.readJustificationsFile h cwd)) program
             initial) in
      (size found = 0 -> RuleB.console (RuleB.lint h cwd program) = [])
      /\ (0 < size found ->
          RuleB.console (RuleB.lint h cwd program)
          = ["Found " +:+ JS.of_nat (size found)
               +:+ " unique NEXT_PUBLIC variables in the code."]))
  /\ (forall (h : Host) cwd rcPath program p,
      RuleA.console (fst (RuleA.lint h cwd rcPath program p))
      = RuleA.console p ++ fst (RuleA.readJustificationsFile h cwd rcPath))
  /\ (forall (st : State) p g,
      RuleA.eslintPluginNextPublic p = Some g ->
      exists p',
        RuleA.visit_Program_exit st p = Return p'
        /\ RuleA.console p' = RuleA.console p
        /\ (RuleA.allFoundVariables <$> RuleA.eslintPluginNextPublic p')
           = Some (RuleA.allFoundVariables g ∪ foundVariables st))
  /\ (forall p g,
      RuleA.eslintPluginNextPublic p = Some g ->
      RuleA.processed g = false ->
      exists p',
        RuleA.exit_listener p = Return p'
        /\ RuleA.console p'
           = RuleA.console p
             ++ ["Found a total of " +:+ JS.of_nat (size (RuleA.allFoundVariables g))
                   +:+ " unique NEXT_PUBLIC variables across all files."]
        /\ (RuleA.allFoundVariables <$> RuleA.eslintPluginNextPublic p') = Some ∅).
Proof.
  split; [|split; [|split]].
  - intros h cwd program found. unfold RuleB.lint, RuleB.visit_Program_exit.
    cbn [RuleB.console]. fold found. split; intros H.
    + by rewrite H.
    + apply Nat.ltb_lt in H. by rewrite H.
  - apply lint_console_A.
  - intros st p g Hg. unfold RuleA.visit_Program_exit. rewrite Hg.
    eexists. split; [reflexivity|]. done.
  - intros p g Hg Hp. unfold RuleA.exit_listener. rewrite Hg, Hp.
    eexists. split; [reflexivity|]. done.
Qed.

Lemma C7_summary_witness :
  (let found :=
     foundVariables
       (traverse (RuleB.enter (RuleB.readJustificationsFile Sample.bare_host ["proj"]))
          (Sample.const_decl "url" (Sample.static_access "NEXT_PUBLIC_API_URL"))
          initial) in
   (size found = 0 ->
    RuleB.console
      (RuleB.lint Sample.bare_host ["proj"]
         (Sample.const_decl "url" (Sample.static_access "NEXT_PUBLIC_API_URL")))
    = [])
   /\ (0 < size found ->
       RuleB.console
         (RuleB.lint Sample.bare_host ["proj"]
            (Sample.const_decl "url" (Sample.static_access "NEXT_PUBLIC_API_URL")))
       = ["Found " +:+ JS.of_nat (size found)
            +:+ " unique NEXT_PUBLIC variables in the code."]))
  /\ RuleB.console
       (RuleB.lint Sample.bare_host ["proj"]
          (Sample.const_decl "url" (Sample.static_access "NEXT_PUBLIC_API_URL")))
     = ["Found 1 unique NEXT_PUBLIC variables in the code."].
Proof.
  split.
  - apply (proj1 C7_summary_at_end_of_file Sample.bare_host ["proj"]).
  - vm_compute. reflexivity.
Defined.

(** C8: a second run of the rule over the same tree, with the same
    filesystem and options, gives the diagnostics of the first run, in the
    same order (or ends with the same error of the loader).  Version A is
    run the second time in the process state the first run left behind;
    version B keeps no state between runs, its run is a function of the
    host, the working directory and the tree. *)
Theorem C8_second_run_same_diagnostics
  (h : Host) (cwd : path) (rcPath : option string) (program : Node)
  (p : RuleA.Process) :
  let first := RuleA.lint h cwd rcPath program p in
  let second := RuleA.lint h cwd rcPath program (fst first) in
  snd second = snd first
  /\ forall p', snd (RuleA.lint h cwd rcPath program p') = snd first.
Proof.
  cbv zeta. split; [|intros p']; by rewrite !lint_diagnostics_A.
Qed.

(** Two runs from a fresh process, and the exit of the process after them. *)
Example two_runs_then_exit :
  let program := Sample.const_decl "key" (Sample.static_access "NEXT_PUBLIC_API_KEY") in
  let run1 := RuleA.lint Sample.bare_host ["proj"] None program Sample.fresh_process in
  let run2 := RuleA.lint Sample.bare_host ["proj"] None program (fst run1) in
  snd run2 = snd run1
  /\ RuleA.exitListeners (fst run2) = 1
  /\ (RuleA.console <$> match RuleA.exit_listener (fst run2) with
                        | Return p => Some p
                        | Throws _ => None
                        end)
     = Some [RuleA.no_file_message; RuleA.no_file_message;
             "Found a total of 1 unique NEXT_PUBLIC variables across all files."].
Proof. cbv zeta. repeat split; vm_compute; reflexivity. Qed.

(** ** Detection is separate from validation *)

(** The state after the validations [ds], started from [st]. *)
Lemma extend_nil st : extend st [] ∅ = st.
Proof.
  apply state_eq; cbn; [by rewrite app_nil_r | by rewrite union_empty_l_L].
Qed.

Lemma extend_extend st a va b vb :
  extend (extend st a va) b vb = extend st (a ++ b) (va ∪ vb).
Proof.
  apply state_eq; cbn; [by rewrite app_assoc|].
  by rewrite (union_comm_L va vb), union_assoc_L.
Qed.

Lemma validations_app minimum justifications (a b : list (Node * string)) st :
  extend st (flat_map (emit minimum justifications) (a ++ b))
    (list_to_set (map snd (a ++ b)))
  = extend
      (extend st (flat_map (emit minimum justifications) a)
         (list_to_set (map snd a)))
      (flat_map (emit minimum justifications) b) (list_to_set (map snd b)).
Proof.
  by rewrite extend_extend, flat_map_app, map_app, list_to_set_app_L.
Qed.

Lemma map_snd_pair {A B} (a : A) (l : list B) : map snd (map (pair a) l) = l.
Proof. induction l as [|x l IH]; cbn; [done | by rewrite IH]. Qed.

Lemma includes_of_match (s : string) (k : nat) :
  Regex.match_all_go k s <> [] -> JS.includes s "NEXT_PUBLIC_" = true.
Proof.
  revert k. induction s as [|c s IH]; intros k; [done|].
  cbn [Regex.match_all_go JS.includes].
  destruct k as [|k].
  - unfold Regex.match_here, Regex.NEXT_PUBLIC_.
    destruct (String.prefix "NEXT_PUBLIC_" (String c s)); [done|].
    intros H. by rewrite (IH 0 H).
  - intros H. rewrite (IH k H). apply orb_true_r.
Qed.

Lemma match_g_all (s : string) :
  Regex.match_g s
  = match Regex.match_all_go 0 s with [] => None | ms => Some ms end.
Proof. reflexivity. Qed.

Lemma fold_checkJustification justifications node names st :
  fold_left (RuleA.check_each justifications node) names st
  = extend st (flat_map (emit 20 justifications) (map (pair node) names))
      (list_to_set names).
Proof.
  revert st. induction names as [|v names IH]; intros st; cbn [fold_left].
  - by rewrite extend_nil.
  - rewrite IH. unfold RuleA.check_each. rewrite checkJustification_spec.
    by rewrite extend_extend.
Qed.

Lemma fold_Literal_each justifications node names st :
  fold_left (RuleB.Literal_each justifications node) names st
  = extend st (flat_map (emit 8 justifications) (map (pair node) names))
      (list_to_set names).
Proof.
  revert st. induction names as [|v names IH]; intros st; cbn [fold_left].
  - by rewrite extend_nil.
  - rewrite IH, Literal_each_spec. by rewrite extend_extend.
Qed.

Lemma fold_TemplateElement_each justifications node names st :
  fold_left (RuleB.TemplateElement_each justifications node) names st
  = extend st (flat_map (emit 8 justifications) (map (pair node) names))
      (list_to_set names).
Proof.
  revert st. induction names as [|v names IH]; intros st; cbn [fold_left].
  - by rewrite extend_nil.
  - rewrite IH, TemplateElement_each_spec. by rewrite extend_extend.
Qed.

(** The pre-check with [includes] never hides a match: a text without the
    prefix has no match. *)
Lemma no_match_without_prefix (s : string) :
  JS.includes s "NEXT_PUBLIC_" = false -> Regex.match_all_go 0 s = [].
Proof.
  intros H. destruct (Regex.match_all_go 0 s) as [|m ms] eqn:E; [done|].
  rewrite (includes_of_match s 0) in H; [done|]. by rewrite E.
Qed.

Lemma one_validation minimum justifications node name st :
  extend st
    (map (fun m => {| diag_node := node; diag_message := m |})
       (verdict minimum justifications name)) {[name]}
  = extend st (flat_map (emit minimum justifications) (map (pair node) [name]))
      (list_to_set [name]).
Proof.
  apply state_eq; cbn; [by rewrite app_nil_r | by rewrite union_empty_r_L].
Qed.

Lemma enter_A_normal justifications n st :
  RuleA.enter justifications n st
  = extend st
      (flat_map (emit 20 justifications) (map (pair n) (validated_A n)))
      (list_to_set (validated_A n)).
Proof.
  destruct n as [[s|]|name|raw|o p c|t cs|pn]; cbn [RuleA.enter validated_A].
  - unfold RuleA.visit_Literal. rewrite match_g_all.
    destruct (JS.includes s "NEXT_PUBLIC_") eqn:Hi.
    + destruct (Regex.match_all_go 0 s) as [|m ms] eqn:E;
        [by rewrite extend_nil | apply fold_checkJustification].
    + rewrite (no_match_without_prefix s Hi). by rewrite extend_nil.
  - by rewrite extend_nil.
  - unfold RuleA.visit_Identifier.
    destruct (JS.startsWith name "NEXT_PUBLIC_");
      [|by rewrite extend_nil].
    rewrite checkJustification_spec. apply one_validation.
  - unfold RuleA.visit_TemplateElement. rewrite match_g_all.
    destruct (JS.includes raw "NEXT_PUBLIC_") eqn:Hi.
    + destruct (JS.truthy raw) eqn:Ht; cbn [andb].
      * destruct (Regex.match_all_go 0 raw) as [|m ms] eqn:E;
          [by rewrite extend_nil | apply fold_checkJustification].
      * apply truthy_false in Ht as ->. by rewrite extend_nil.
    + rewrite andb_false_r, (no_match_without_prefix raw Hi).
      by rewrite extend_nil.
  - unfold RuleA.visit_MemberExpression.
    destruct (RuleA.on_process_env o); cbn [andb];
      [|destruct p as [[v|]| | | | |]; by rewrite extend_nil].
    destruct p as [[v|]|name| | | |]; try by rewrite extend_nil.
    + destruct (JS.startsWith v "NEXT_PUBLIC_"); [|by rewrite extend_nil].
      rewrite checkJustification_spec. apply one_validation.
    + destruct (JS.startsWith name "NEXT_PUBLIC_"); [|by rewrite extend_nil].
      rewrite checkJustification_spec. apply one_validation.
  - by rewrite extend_nil.
  - by rewrite extend_nil.
Qed.

Lemma enter_B_normal justifications n st :
  RuleB.enter justifications n st
  = extend st
      (flat_map (emit 8 justifications) (map (pair n) (validated_B n)))
      (list_to_set (validated_B n)).
Proof.
  destruct n as [[s|]|name|raw|o p c|t cs|pn]; cbn [RuleB.enter validated_B];
    try by rewrite extend_nil.
  - unfold RuleB.visit_Literal. rewrite match_g_all.
    destruct (JS.includes s "NEXT_PUBLIC_") eqn:Hi.
    + destruct (Regex.match_all_go 0 s) as [|m ms] eqn:E;
        [by rewrite extend_nil | apply fold_Literal_each].
    + rewrite (no_match_without_prefix s Hi). by rewrite extend_nil.
  - destruct (JS.startsWith name "NEXT_PUBLIC_") eqn:Hp.
    + rewrite (visit_Identifier_B_spec _ _ _ _ Hp). apply one_validation.
    + unfold RuleB.visit_Identifier. rewrite Hp. by rewrite extend_nil.
  - unfold RuleB.visit_TemplateElement. rewrite match_g_all.
    destruct (JS.includes raw "NEXT_PUBLIC_") eqn:Hi.
    + destruct (JS.truthy raw) eqn:Ht; cbn [andb].
      * destruct (Regex.match_all_go 0 raw) as [|m ms] eqn:E;
          [by rewrite extend_nil | apply fold_TemplateElement_each].
      * apply truthy_false in Ht as ->. by rewrite extend_nil.
    + rewrite andb_false_r, (no_match_without_prefix raw Hi).
      by rewrite extend_nil.
Qed.

Lemma traverse_normal minimum justifications
  (enter : Node -> State -> State) (validated : Node -> list string) :
  (forall n st,
      enter n st
      = extend st
          (flat_map (emit minimum justifications) (map (pair n) (validated n)))
          (list_to_set (validated n))) ->
  forall n st,
    traverse enter n st
    = extend st
        (flat_map (emit minimum justifications) (detections validated n))
        (list_to_set (map snd (detections validated n))).
Proof.
  intros He n.
  induction n as [v|name|raw|o p c IHo IHp|t cs IH|pn] using Node_ind';
    intros st; cbn [traverse detections]; rewrite ?app_nil_r, ?He;
    rewrite ?map_snd_pair; try done.
  - rewrite IHo, IHp, !validations_app. by rewrite map_snd_pair.
  - rewrite validations_app, map_snd_pair.
    generalize (extend st
                  (flat_map (emit minimum justifications)
                     (map (pair (Other t cs)) (validated (Other t cs))))
                  (list_to_set (validated (Other t cs)))).
    induction IH as [|c cs' Hc _ IHcs]; intros s; cbn [fold_left flat_map].
    + by rewrite extend_nil.
    + rewrite IHcs, Hc. by rewrite validations_app.
Qed.

(** The state after a traversal from the initial state, in both versions:
    the verdicts of the detections in traversal order, and the detected
    names. *)
Lemma run_A_normal justifications n :
  traverse (RuleA.enter justifications) n initial
  = extend initial
      (flat_map (emit 20 justifications) (detections validated_A n))
      (found_in validated_A n).
Proof.
  apply (traverse_normal 20 justifications _ validated_A
           (enter_A_normal justifications)).
Qed.

Lemma run_B_normal justifications n :
  traverse (RuleB.enter justifications) n initial
  = extend initial
      (flat_map (emit 8 justifications) (detections validated_B n))
      (found_in validated_B n).
Proof.
  apply (traverse_normal 8 justifications _ validated_B
           (enter_B_normal justifications)).
Qed.

(** What the messages of a verdict say about the store. *)
Lemma verdict_message minimum (justifications : JustificationStore) v m :
  m ∈ verdict minimum justifications v ->
  (m = msg_requires v
   /\ (justifications !! v = None \/ justifications !! v = Some ""))
  \/ (m = msg_too_short v
      /\ exists text,
          justifications !! v = Some text /\ text <> ""
          /\ String.length text < minimum).
Proof.
  unfold verdict. destruct (justifications !! v) as [text|].
  - destruct text as [|c text]; cbn [JS.truthy negb].
    + intros ->%list_elem_of_singleton. left. auto.
    + destruct (String.length (String c text) <? minimum) eqn:Hl.
      * intros ->%list_elem_of_singleton. right. split; [done|].
        exists (String c text). apply Nat.ltb_lt in Hl. done.
      * by intros ?%elem_of_nil.
  - intros ->%list_elem_of_singleton. left. auto.
Qed.

Lemma verdict_nil minimum (justifications : JustificationStore) v :
  0 < minimum ->
  verdict minimum justifications v = [] <-> justified minimum justifications v.
Proof.
  intros Hmin. unfold verdict, justified. split.
  - destruct (justifications !! v) as [text|]; [|done].
    destruct (negb (JS.truthy text)); [done|].
    destruct (String.length text <? minimum) eqn:Hl; [done|].
    intros _. exists text. apply Nat.ltb_ge in Hl. done.
  - intros (text & -> & Hl).
    destruct text as [|c text]; [cbn in Hl; lia|]. cbn [JS.truthy negb].
    apply Nat.ltb_ge in Hl. by rewrite Hl.
Qed.

Lemma in_emissions minimum justifications (ds : list (Node * string)) d :
  d ∈ flat_map (emit minimum justifications) ds ->
  exists nd v,
    (nd, v) ∈ ds /\ diag_node d = nd
    /\ diag_message d ∈ verdict minimum justifications v.
Proof.
  intros Hd. apply list_elem_of_In, in_flat_map in Hd as ([nd v] & Hin & Hd).
  apply list_elem_of_In in Hin. exists nd, v. split; [done|].
  unfold emit in Hd. apply in_map_iff in Hd as (m & <- & Hm).
  cbn. split; [done | by apply list_elem_of_In].
Qed.

Lemma in_found_in validated n v :
  v ∈ found_in validated n <-> exists nd, (nd, v) ∈ detections validated n.
Proof.
  unfold found_in. rewrite elem_of_list_to_set. split.
  - intros Hv. apply list_elem_of_In, in_map_iff in Hv as ([nd v'] & <- & Hin).
    exists nd. by apply list_elem_of_In.
  - intros (nd & Hin). apply list_elem_of_In, in_map_iff.
    exists (nd, v). split; [done | by apply list_elem_of_In].
Qed.

(** X2: the link between the diagnostics of a file and the store.  Every
    diagnostic of a run is about a found name; when it requires a
    justification the store has no entry for the name or an entry with the
    empty text, and when it says too short the store has a non-empty text
    for the name that is shorter than the minimum of the version. *)
Theorem X2_diagnostic_reflects_store
  (justifications : JustificationStore) (n : Node) (d : Diagnostic) :
  (d ∈ reports (traverse (RuleA.enter justifications) n initial) ->
   exists v,
     v ∈ foundVariables (traverse (RuleA.enter justifications) n initial)
     /\ ((diag_message d = msg_requires v
          /\ (justifications !! v = None \/ justifications !! v = Some ""))
         \/ (diag_message d = msg_too_short v
             /\ exists text,
                 justifications !! v = Some text /\ text <> ""
                 /\ String.length text < 20)))
  /\
  (d ∈ reports (traverse (RuleB.enter justifications) n initial) ->
   exists v,
     v ∈ foundVariables (traverse (RuleB.enter justifications) n initial)
     /\ ((diag_message d = msg_requires v
          /\ (justifications !! v = None \/ justifications !! v = Some ""))
         \/ (diag_message d = msg_too_short v
             /\ exists text,
                 justifications !! v = Some text /\ text <> ""
                 /\ String.length text < 8))).
Proof.
  rewrite run_A_normal, run_B_normal. cbn [extend reports foundVariables initial].
  rewrite !union_empty_r_L.
  split; intros Hd; apply in_emissions in Hd as (nd & v & Hin & _ & Hm);
    exists v; (split; [apply in_found_in; by exists nd|]);
    by apply verdict_message in Hm.
Qed.

(** X3: a file gets no diagnostic exactly when every name found in it has
    an entry in the store whose text reaches the minimum of the version. *)
Theorem X3_clean_iff_all_found_justified
  (justifications : JustificationStore) (n : Node) :
  (reports (traverse (RuleA.enter justifications) n initial) = []
   <-> forall v,
        v ∈ foundVariables (traverse (RuleA.enter justifications) n initial) ->
        justified 20 justifications v)
  /\
  (reports (traverse (RuleB.enter justifications) n initial) = []
   <-> forall v,
        v ∈ foundVariables (traverse (RuleB.enter justifications) n initial) ->
        justified 8 justifications v).
Proof.
  assert (forall minimum ds, 0 < minimum ->
            flat_map (emit minimum justifications) ds = []
            <-> forall v, v ∈ (list_to_set (map snd ds) : gset string) ->
                          justified minimum justifications v) as Hgen.
  { intros minimum ds Hmin. induction ds as [|[nd v] ds IH]; cbn.
    - split; [intros _ v Hv; by apply elem_of_empty in Hv | done].
    - unfold emit at 1. cbn [fst snd]. split.
      + intros [Hv Hds]%app_eq_nil v' [->%elem_of_singleton|Hv']%elem_of_union.
        * apply (verdict_nil _ _ _ Hmin).
          by destruct (verdict minimum justifications v).
        * by apply IH.
      + intros Hall.
        assert (verdict minimum justifications v = []) as ->.
        { apply (verdict_nil _ _ _ Hmin), Hall, elem_of_union_l.
          by apply elem_of_singleton. }
        cbn. apply IH. intros v' Hv'. by apply Hall, elem_of_union_r. }
  rewrite run_A_normal, run_B_normal. cbn [extend reports foundVariables initial].
  rewrite !union_empty_r_L. unfold found_in.
  split; apply Hgen; lia.
Qed.

Lemma messages_of_emissions minimum justifications (ds : list (Node * string)) :
  map diag_message (flat_map (emit minimum justifications) ds)
  = flat_map (fun d => verdict minimum justifications (snd d)) ds.
Proof.
  induction ds as [|d ds IH]; cbn; [done|].
  rewrite map_app, IH. f_equal. unfold emit. rewrite map_map. cbn.
  by rewrite map_id.
Qed.

Lemma sublist_map {A B} (f : A -> B) (l1 l2 : list A) :
  l1 `sublist_of` l2 -> map f l1 `sublist_of` map f l2.
Proof.
  induction 1 as [|x l1 l2 _ IH|x l1 l2 _ IH]; cbn;
    [done | by apply sublist_skip | by apply sublist_cons].
Qed.

Lemma in_map_pair {A B} (a a' : A) (b : B) (l : list B) :
  (a', b) ∈ map (pair a) l -> a' = a.
Proof.
  intros H. apply list_elem_of_In, in_map_iff in H as (x & [= <- _] & _). done.
Qed.

Lemma validated_B_sublist n : validated_B n `sublist_of` validated_A n.
Proof.
  destruct n as [[s|]|name|raw|o p c|t cs|pn]; cbn; try done.
  apply sublist_nil_l.
Qed.

Lemma detections_B_sublist n :
  detections validated_B n `sublist_of` detections validated_A n.
Proof.
  induction n as [v|name|raw|o p c IHo IHp|t cs IH|pn] using Node_ind';
    cbn [detections];
    try (apply sublist_app; [apply sublist_map, validated_B_sublist | done]).
  - apply sublist_app; [apply sublist_map, validated_B_sublist|].
    by apply sublist_app.
  - apply sublist_app; [apply sublist_map, validated_B_sublist|].
    induction IH as [|c cs' Hc _ IHcs]; cbn; [done | by apply sublist_app].
Qed.

Lemma verdict_8_sublist_20 (justifications : JustificationStore) v :
  verdict 8 justifications v `sublist_of` verdict 20 justifications v.
Proof.
  unfold verdict. destruct (justifications !! v) as [text|]; [|done].
  destruct (negb (JS.truthy text)); [done|].
  destruct (String.length text <? 8) eqn:H8.
  - apply Nat.ltb_lt in H8.
    rewrite (proj2 (Nat.ltb_lt (String.length text) 20)) by lia. done.
  - apply sublist_nil_l.
Qed.

(** X4: version A reports at least what version B reports.  For every store
    and every tree, the messages of version B are a subsequence of the
    messages of version A, and the names found by version B are among those
    found by version A. *)
Theorem X4_version_B_messages_within_version_A
  (justifications : JustificationStore) (n : Node) :
  messages (traverse (RuleB.enter justifications) n initial)
    `sublist_of` messages (traverse (RuleA.enter justifications) n initial)
  /\ foundVariables (traverse (RuleB.enter justifications) n initial)
     ⊆ foundVariables (traverse (RuleA.enter justifications) n initial).
Proof.
  rewrite run_A_normal, run_B_normal. unfold messages.
  cbn [extend reports foundVariables initial app].
  rewrite !union_empty_r_L, !messages_of_emissions. split.
  - induction (detections_B_sublist n) as [|d l1 l2 _ IH|d l1 l2 _ IH]; cbn.
    + done.
    + apply sublist_app; [apply verdict_8_sublist_20 | apply IH].
    + by apply sublist_inserts_l.
  - intros v. rewrite !in_found_in. intros (nd & Hin). exists nd.
    by apply (sublist_subseteq _ _ (detections_B_sublist n)).
Qed.

(** X5: detection does not look at the store.  The names found in a tree
    are the same for any two stores, in both versions, and so the summary
    line of version B is the same on any two hosts. *)
Theorem X5_found_names_independent_of_store
  (justifications justifications' : JustificationStore) (h h' : Host)
  (cwd cwd' : path) (n : Node) (st : State) :
  foundVariables (traverse (RuleA.enter justifications) n st)
  = foundVariables (traverse (RuleA.enter justifications') n st)
  /\ foundVariables (traverse (RuleB.enter justifications) n st)
     = foundVariables (traverse (RuleB.enter justifications') n st)
  /\ RuleB.console (RuleB.lint h cwd n) = RuleB.console (RuleB.lint h' cwd' n).
Proof.
  split; [|split].
  - by rewrite !(traverse_normal 20 _ _ validated_A (enter_A_normal _)).
  - by rewrite !(traverse_normal 8 _ _ validated_B (enter_B_normal _)).
  - unfold RuleB.lint, RuleB.visit_Program_exit. cbn [RuleB.console].
    by rewrite !run_B_normal.
Qed.

(** X7: every diagnostic of a run is attached to a node of the traversed
    tree, and that node is a literal, an identifier, a template element or a
    member expression. *)
Theorem X7_diagnostics_sit_on_visited_nodes
  (justifications : JustificationStore) (n : Node) (d : Diagnostic) :
  d ∈ reports (traverse (RuleA.enter justifications) n initial)
  \/ d ∈ reports (traverse (RuleB.enter justifications) n initial) ->
  diag_node d ∈ subnodes n
  /\ (forall type children, diag_node d <> Other type children)
  /\ (forall name, diag_node d <> PrivateIdentifier name).
Proof.
  assert (forall validated nd v,
            (forall t cs, validated (Other t cs) = []) ->
            (forall name, validated (PrivateIdentifier name) = []) ->
            (nd, v) ∈ detections validated n ->
            nd ∈ subnodes n
            /\ (forall t cs, nd <> Other t cs)
            /\ (forall name, nd <> PrivateIdentifier name)) as Hdet.
  { intros validated nd v Hother Hprivate.
    induction n as [x|name|raw|o p c IHo IHp|t cs IH|pn] using Node_ind';
      cbn [detections subnodes]; rewrite ?app_nil_r.
    - intros ->%in_map_pair. split; [apply list_elem_of_here | done].
    - intros ->%in_map_pair. split; [apply list_elem_of_here | done].
    - intros ->%in_map_pair. split; [apply list_elem_of_here | done].
    - intros [->%in_map_pair|[H|H]%elem_of_app]%elem_of_app.
      + split; [apply list_elem_of_here | done].
      + destruct (IHo H) as [Hin Hk]. split; [|done].
        apply list_elem_of_further, elem_of_app. by left.
      + destruct (IHp H) as [Hin Hk]. split; [|done].
        apply list_elem_of_further, elem_of_app. by right.
    - rewrite Hother. cbn [map app]. intros H.
      apply list_elem_of_In, in_flat_map in H as (c & Hc & H).
      apply list_elem_of_In in Hc, H.
      rewrite Forall_forall in IH. destruct (IH c Hc H) as [Hin Hk].
      split; [|done]. apply list_elem_of_further, list_elem_of_In, in_flat_map.
      exists c. split; by apply list_elem_of_In.
    - rewrite Hprivate. cbn [map]. by intros ?%elem_of_nil. }
  rewrite run_A_normal, run_B_normal. cbn [extend reports initial app].
  intros [Hd|Hd]; apply in_emissions in Hd as (nd & v & Hin & <- & _).
  - by apply (Hdet validated_A (diag_node d) v).
  - by apply (Hdet validated_B (diag_node d) v).
Qed.

Lemma append_cancel_r (a b c : string) : a +:+ c = b +:+ c -> a = b.
Proof.
  intros H.
  assert (String.length a = String.length b) as Hl.
  { apply (f_equal String.length) in H. rewrite !length_append in H. lia. }
  revert b H Hl. induction a as [|x a IH]; intros [|y b] H Hl; try done.
  rewrite !append_cons in H. injection H as Hx H. subst y. cbn in Hl.
  f_equal. apply IH; [done | lia].
Qed.

Lemma msg_requires_inj v v' : msg_requires v = msg_requires v' -> v = v'.
Proof.
  unfold msg_requires. intros H%String.app_inj. by apply append_cancel_r in H.
Qed.

Lemma msg_too_short_inj v v' : msg_too_short v = msg_too_short v' -> v = v'.
Proof.
  unfold msg_too_short. intros H%String.app_inj. by apply append_cancel_r in H.
Qed.

Lemma msg_requires_not_too_short v v' : msg_requires v <> msg_too_short v'.
Proof. unfold msg_requires, msg_too_short. intros H. discriminate H. Qed.

Lemma verdict_about minimum (justifications : JustificationStore) v m :
  m ∈ verdict minimum justifications v -> about v m.
Proof.
  intros [[-> _]|[-> _]]%verdict_message; [by left | by right].
Qed.

Lemma about_same v v' m : about v m -> about v' m -> v = v'.
Proof.
  intros [-> | ->] [H|H].
  - by apply msg_requires_inj in H.
  - by apply msg_requires_not_too_short in H.
  - symmetry in H. by apply msg_requires_not_too_short in H.
  - by apply msg_too_short_inj in H.
Qed.

Lemma verdict_cases minimum (justifications : JustificationStore) v :
  verdict minimum justifications v = []
  \/ verdict minimum justifications v = [msg_requires v]
  \/ verdict minimum justifications v = [msg_too_short v].
Proof.
  unfold verdict. destruct (justifications !! v) as [text|]; [|auto].
  destruct (negb (JS.truthy text)); [auto|].
  destruct (String.length text <? minimum); auto.
Qed.

Lemma silenced minimum (justifications : JustificationStore) v text
  (ds : list (Node * string)) :
  0 < minimum ->
  minimum <= String.length text ->
  flat_map (fun d => verdict minimum (<[v := text]> justifications) (snd d)) ds
  = filter (fun m => ~ about v m)
      (flat_map (fun d => verdict minimum justifications (snd d)) ds).
Proof.
  intros Hmin Hlen. induction ds as [|[nd v'] ds IH]; cbn [flat_map snd];
    [done|].
  rewrite filter_app, <- IH. f_equal.
  destruct (decide (v' = v)) as [->|Hne].
  - assert (verdict minimum (<[v:=text]> justifications) v = []) as ->.
    { apply (verdict_nil _ _ _ Hmin). exists text.
      by rewrite lookup_insert_eq. }
    destruct (verdict_cases minimum justifications v) as [-> | [-> | ->]];
      [done| |]; rewrite filter_cons_False, ?filter_nil; try done;
      intros H; apply H; [by left | by right].
  - assert (verdict minimum (<[v:=text]> justifications) v'
            = verdict minimum justifications v') as ->.
    { unfold verdict. by rewrite lookup_insert_ne. }
    destruct (verdict_cases minimum justifications v') as [-> | [-> | ->]];
      [done| |]; rewrite filter_cons_True, ?filter_nil; try done;
      intros H; apply Hne; refine (about_same v' v _ _ H);
      first [by left | by right].
Qed.

(** X6: adding to the store a text of sufficient length for one variable
    removes exactly the diagnostics about that variable: the messages of the
    run with the new store are the messages of the run with the old one
    without those about the variable, in the same order. *)
Theorem X6_justifying_a_variable_silences_only_it
  (justifications : JustificationStore) (v text : string) (n : Node) :
  (20 <= String.length text ->
   messages (traverse (RuleA.enter (<[v := text]> justifications)) n initial)
   = filter (fun m => ~ about v m)
       (messages (traverse (RuleA.enter justifications) n initial)))
  /\
  (8 <= String.length text ->
   messages (traverse (RuleB.enter (<[v := text]> justifications)) n initial)
   = filter (fun m => ~ about v m)
       (messages (traverse (RuleB.enter justifications) n initial))).
Proof.
  unfold messages. rewrite !run_A_normal, !run_B_normal.
  cbn [extend reports initial app]. rewrite !messages_of_emissions.
  split; intros Hlen; apply silenced; lia.
Qed.

Lemma X6_justifying_a_variable_witness :
  let program :=
    Other "Program"
      [Sample.static_access "NEXT_PUBLIC_API_KEY"; Identifier "NEXT_PUBLIC_FLAG"] in
  let text := "Needed for client-side API calls" in
  messages (traverse (RuleA.enter (<["NEXT_PUBLIC_API_KEY" := text]> ∅)) program initial)
  = filter (fun m => ~ about "NEXT_PUBLIC_API_KEY" m)
      (messages (traverse (RuleA.enter ∅) program initial))
  /\ messages (traverse (RuleA.enter (<["NEXT_PUBLIC_API_KEY" := text]> ∅)) program initial)
     = [msg_requires "NEXT_PUBLIC_FLAG"].
Proof.
  split.
  - apply (proj1 (X6_justifying_a_variable_silences_only_it ∅
                    "NEXT_PUBLIC_API_KEY" "Needed for client-side API calls"
                    (Other "Program"
                       [Sample.static_access "NEXT_PUBLIC_API_KEY";
                        Identifier "NEXT_PUBLIC_FLAG"]))).
    cbn. lia.
  - vm_compute. reflexivity.
Defined.

Lemma prefix_true_app (p s : string) :
  String.prefix p s = true -> s = p +:+ JS.drop (String.length p) s.
Proof.
  revert s. induction p as [|c p IH]; intros s; [by destruct s|].
  destruct s as [|d s]; cbn; [done|].
  destruct (ascii_dec c d) as [->|]; [|done].
  intros H. rewrite append_cons. f_equal. by apply IH.
Qed.

Lemma match_here_spec (s m : string) :
  Regex.match_here s = Some m ->
  (exists x, m = "NEXT_PUBLIC_" +:+ x /\ valid_suffix x)
  /\ String.prefix m s = true.
Proof.
  unfold Regex.match_here, Regex.NEXT_PUBLIC_.
  destruct (String.prefix "NEXT_PUBLIC_" s) eqn:Hp; [|done].
  apply prefix_true_app in Hp. cbn [String.length] in Hp.
  destruct (JS.span Regex.is_var_char (JS.drop 12 s)) as [run rest] eqn:Hs.
  apply span_spec in Hs as (Hd & Hrun & _).
  destruct run as [|c run]; [done|]. intros [= <-]. split.
  - exists (String c run). split; [done|]. split; done.
  - rewrite Hp, Hd, <- append_assoc. apply prefix_append.
Qed.

Lemma match_all_go_spec (s : string) (k : nat) (m : string) :
  m ∈ Regex.match_all_go k s ->
  (exists x, m = "NEXT_PUBLIC_" +:+ x /\ valid_suffix x)
  /\ JS.includes s m = true.
Proof.
  revert k. induction s as [|c s IH]; intros k; cbn [Regex.match_all_go].
  - by intros ?%elem_of_nil.
  - cbn [JS.includes]. destruct k as [|k].
    + destruct (Regex.match_here (String c s)) as [m0|] eqn:Hm.
      * intros [->|Hin]%elem_of_cons.
        -- apply match_here_spec in Hm as [Hx Hp]. by rewrite Hp.
        -- destruct (IH _ Hin) as [Hx Hi]. rewrite Hi, orb_true_r. done.
      * intros Hin. destruct (IH _ Hin) as [Hx Hi]. by rewrite Hi, orb_true_r.
    + intros Hin. destruct (IH _ Hin) as [Hx Hi]. by rewrite Hi, orb_true_r.
Qed.

(** X8: a name that the [Literal] or the [TemplateElement] visitor finds in
    a text is well-formed (the prefix followed by one or more characters of
    the class) and occurs in the text, in both versions. *)
Theorem X8_names_found_in_text_are_well_formed
  (justifications : JustificationStore) (s v : string) :
  v ∈ foundVariables (RuleA.enter justifications (Literal (LString s)) initial)
  \/ v ∈ foundVariables (RuleA.enter justifications (TemplateElement s) initial)
  \/ v ∈ foundVariables (RuleB.enter justifications (Literal (LString s)) initial)
  \/ v ∈ foundVariables (RuleB.enter justifications (TemplateElement s) initial) ->
  (exists x, v = "NEXT_PUBLIC_" +:+ x /\ valid_suffix x)
  /\ JS.includes s v = true.
Proof.
  rewrite !enter_A_normal, !enter_B_normal.
  cbn [validated_A validated_B extend foundVariables initial].
  rewrite !union_empty_r_L, !elem_of_list_to_set.
  intros [H|[H|[H|H]]]; by apply (match_all_go_spec s 0).
Qed.

Lemma X8_names_found_in_text_witness :
  (exists x, "NEXT_PUBLIC_A1" = "NEXT_PUBLIC_" +:+ x /\ valid_suffix x)
  /\ JS.includes "see NEXT_PUBLIC_A1-NEXT_PUBLIC_b" "NEXT_PUBLIC_A1" = true.
Proof.
  apply (X8_names_found_in_text_are_well_formed ∅
           "see NEXT_PUBLIC_A1-NEXT_PUBLIC_b" "NEXT_PUBLIC_A1").
  left. rewrite enter_A_normal.
  apply elem_of_union_l, elem_of_list_to_set. vm_compute.
  apply list_elem_of_here.
Defined.

Lemma X7_diagnostics_sit_on_visited_nodes_witness :
  let program := Sample.const_decl "url" (Sample.static_access "NEXT_PUBLIC_API_KEY") in
  let d := {| diag_node := Identifier "NEXT_PUBLIC_API_KEY";
              diag_message := msg_requires "NEXT_PUBLIC_API_KEY" |} in
  diag_node d ∈ subnodes program
  /\ (forall type children, diag_node d <> Other type children)
  /\ (forall name, diag_node d <> PrivateIdentifier name).
Proof.
  apply (X7_diagnostics_sit_on_visited_nodes ∅
           (Sample.const_decl "url" (Sample.static_access "NEXT_PUBLIC_API_KEY"))
           {| diag_node := Identifier "NEXT_PUBLIC_API_KEY";
              diag_message := msg_requires "NEXT_PUBLIC_API_KEY" |}).
  right. vm_compute. apply list_elem_of_here.
Defined.

(** ** Entries of the simple format *)

Lemma trimEnd_idem (s : string) : JS.trimEnd (JS.trimEnd s) = JS.trimEnd s.
Proof.
  induction s as [|c s IH]; [done|]. cbn [JS.trimEnd].
  destruct (JS.trimEnd s) as [|d t] eqn:E.
  - destruct (JS.is_white c) eqn:Hc; [done|]. cbn. by rewrite Hc.
  - cbn [JS.trimEnd]. cbn [JS.trimEnd] in IH. by rewrite IH.
Qed.

Lemma trimStart_length (s : string) :
  String.length (JS.trimStart s) <= String.length s.
Proof.
  induction s as [|c s IH]; cbn; [done|].
  destruct (JS.is_white c); cbn; lia.
Qed.

Lemma trimStart_head (s : string) :
  match JS.trimStart s with
  | EmptyString => True
  | String c _ => JS.is_white c = false
  end.
Proof.
  induction s as [|c s IH]; cbn; [done|].
  destruct (JS.is_white c) eqn:Hc; [done | by rewrite Hc].
Qed.

Lemma trimStart_trimEnd (t : string) :
  match t with EmptyString => True | String c _ => JS.is_white c = false end ->
  JS.trimStart (JS.trimEnd t) = JS.trimEnd t.
Proof.
  destruct t as [|c t]; [done|]. intros Hc. cbn [JS.trimEnd].
  destruct (JS.trimEnd t); rewrite ?Hc; cbn; by rewrite Hc.
Qed.

Lemma trim_idem (s : string) : JS.trim (JS.trim s) = JS.trim s.
Proof.
  unfold JS.trim.
  rewrite (trimStart_trimEnd (JS.trimStart s) (trimStart_head s)).
  apply trimEnd_idem.
Qed.

Lemma all_chars_trimStart f s :
  Regex.all_chars f s = true -> Regex.all_chars f (JS.trimStart s) = true.
Proof.
  induction s as [|c s IH]; cbn; [done|].
  intros [Hc Hs]%andb_prop. destruct (JS.is_white c); [by apply IH|].
  cbn. by rewrite Hc, Hs.
Qed.

Lemma all_chars_trimEnd f s :
  Regex.all_chars f s = true -> Regex.all_chars f (JS.trimEnd s) = true.
Proof.
  induction s as [|c s IH]; cbn; [done|].
  intros [Hc Hs]%andb_prop. specialize (IH Hs).
  destruct (JS.trimEnd s) as [|a t];
    [destruct (JS.is_white c); cbn; by rewrite ?Hc|].
  change (f c && Regex.all_chars f (String a t) = true). by rewrite Hc, IH.
Qed.

Lemma all_chars_trim f s :
  Regex.all_chars f s = true -> Regex.all_chars f (JS.trim s) = true.
Proof. intros H. by apply all_chars_trimEnd, all_chars_trimStart. Qed.

Lemma line_entry_functional line k v k' v' :
  line_entry line k v -> line_entry line k' v' -> k = k' /\ v = v'.
Proof.
  intros (_ & key & value & H1 & -> & ->) (_ & key' & value' & H2 & -> & ->).
  apply match_line_spec in H1, H2. rewrite H1 in H2. by injection H2 as -> ->.
Qed.

Lemma parse_line_cases (justifications : JustificationStore) line :
  (exists k v,
      line_entry line k v
      /\ RuleA.parse_line justifications line = set_property k v justifications)
  \/ ((forall k v, ~ line_entry line k v)
      /\ RuleA.parse_line justifications line = justifications).
Proof.
  unfold RuleA.parse_line.
  destruct (JS.truthy (JS.trim line)) eqn:Ht; cbn [negb orb].
  - destruct (JS.startsWith (JS.trim line) "#") eqn:Hc.
    + right. split; [|done]. intros k v [Hskip _]. apply Hskip. by right.
    + destruct (Regex.match_line line) as [[key value]|] eqn:Hm.
      * left. exists (JS.trim key), (JS.trim value). split; [|done]. split.
        -- intros [Hb|Hs]; [by rewrite Hb in Ht | by rewrite Hs in Hc].
        -- exists key, value. split; [by apply match_line_spec | done].
      * right. split; [|done].
        intros k v (_ & key & value & Hkv%match_line_spec & _).
        by rewrite Hkv in Hm.
  - right. split; [|done]. intros k v [Hskip _]. apply Hskip. left.
    by apply truthy_false.
Qed.

Lemma lookup_set_property_eq (k v : string) (object : JustificationStore) :
  k <> "__proto__" -> set_property k v object !! k = Some v.
Proof. intros H. by rewrite set_property_other, lookup_insert_eq. Qed.

Lemma lookup_set_property_ne (k k' v : string) (object : JustificationStore) :
  k <> k' -> set_property k v object !! k' = object !! k'.
Proof.
  intros H. unfold set_property. destruct (decide (k = "__proto__")); [done|].
  by rewrite lookup_insert_ne.
Qed.

(** The line parser never creates the key [__proto__]. *)
Lemma fold_parse_lookup_proto (lines : list string) (j0 : JustificationStore) :
  fold_left RuleA.parse_line lines j0 !! "__proto__" = j0 !! "__proto__".
Proof.
  revert j0. induction lines as [|l lines IH]; intros j0; [done|].
  cbn [fold_left]. rewrite IH.
  destruct (parse_line_cases j0 l) as [(k & v & _ & ->)|[_ ->]]; [|done].
  destruct (decide (k = "__proto__")) as [->|Hne]; [done|].
  by apply lookup_set_property_ne.
Qed.

Lemma snoc_decompose {A} (before after ls : list A) (l x : A) :
  before ++ l :: after = ls ++ [x] ->
  (after = [] /\ before = ls /\ l = x)
  \/ (exists after', after = after' ++ [x] /\ ls = before ++ l :: after').
Proof.
  destruct after as [|y after _] using rev_ind.
  - intros [-> ->]%app_inj_tail. by left.
  - change (before ++ l :: after ++ [y])
      with (before ++ (l :: after) ++ [y]).
    rewrite app_assoc. intros [<- ->]%app_inj_tail. right. by exists after.
Qed.

Lemma fold_parse_lookup (lines : list string) (j0 : JustificationStore) k v :
  k <> "__proto__" ->
  fold_left RuleA.parse_line lines j0 !! k = Some v
  <-> (exists before l after,
          lines = before ++ l :: after
          /\ line_entry l k v
          /\ forall l' v', l' ∈ after -> ~ line_entry l' k v')
      \/ (j0 !! k = Some v
          /\ forall l' v', l' ∈ lines -> ~ line_entry l' k v').
Proof.
  intros Hk. induction lines as [|x lines IH] using rev_ind.
  - cbn. split.
    + intros H. right. split; [done|]. by intros l' v' ?%elem_of_nil.
    + intros [(b & l & a & E & _)|[H _]]; [by destruct b | done].
  - rewrite fold_left_app. cbn [fold_left].
    destruct (parse_line_cases (fold_left RuleA.parse_line lines j0) x)
      as [(k1 & v1 & He & ->)|[Hno ->]].
    + destruct (decide (k1 = k)) as [->|Hne].
      * rewrite lookup_set_property_eq by done. split.
        -- intros [= <-]. left. exists lines, x, []. split; [done|].
           split; [done|]. by intros l' v' ?%elem_of_nil.
        -- intros [(b & l & a & E & Hl & Ha)|[_ Hall]].
           ++ symmetry in E; apply snoc_decompose in E as [(-> & -> & ->)|(a' & -> & ->)].
              ** by destruct (line_entry_functional _ _ _ _ _ He Hl) as [_ ->].
              ** destruct (Ha x v1); [|done].
                 apply elem_of_app. right. apply list_elem_of_here.
           ++ destruct (Hall x v1); [|done].
              apply elem_of_app. right. apply list_elem_of_here.
      * rewrite lookup_set_property_ne by done. rewrite IH. split.
        -- intros [(b & l & a & -> & Hl & Ha)|[Hj Hall]].
           ++ left. exists b, l, (a ++ [x]).
              split; [by rewrite <- app_assoc|]. split; [done|].
              intros l' v' [H|H]%elem_of_app; [by apply Ha|].
              apply list_elem_of_singleton in H as ->. intros Hx.
              by destruct (line_entry_functional _ _ _ _ _ He Hx).
           ++ right. split; [done|].
              intros l' v' [H|H]%elem_of_app; [by apply Hall|].
              apply list_elem_of_singleton in H as ->. intros Hx.
              by destruct (line_entry_functional _ _ _ _ _ He Hx).
        -- intros [(b & l & a & E & Hl & Ha)|[Hj Hall]].
           ++ symmetry in E; apply snoc_decompose in E as [(-> & -> & ->)|(a' & -> & ->)].
              ** by destruct (line_entry_functional _ _ _ _ _ He Hl).
              ** left. exists b, l, a'. split; [done|]. split; [done|].
                 intros l' v' H. apply Ha, elem_of_app. by left.
           ++ right. split; [done|].
              intros l' v' H. apply Hall, elem_of_app. by left.
    + rewrite IH. split.
      * intros [(b & l & a & -> & Hl & Ha)|[Hj Hall]].
        -- left. exists b, l, (a ++ [x]).
           split; [by rewrite <- app_assoc|]. split; [done|].
           intros l' v' [H|H]%elem_of_app; [by apply Ha|].
           apply list_elem_of_singleton in H as ->. apply Hno.
        -- right. split; [done|].
           intros l' v' [H|H]%elem_of_app; [by apply Hall|].
           apply list_elem_of_singleton in H as ->. apply Hno.
      * intros [(b & l & a & E & Hl & Ha)|[Hj Hall]].
        -- symmetry in E; apply snoc_decompose in E as [(-> & -> & ->)|(a' & -> & ->)].
           ++ by destruct (Hno k v).
           ++ left. exists b, l, a'. split; [done|]. split; [done|].
              intros l' v' H. apply Ha, elem_of_app. by left.
        -- right. split; [done|].
           intros l' v' H. apply Hall, elem_of_app. by left.
Qed.

(** X9: what the store parsed from the simple format holds for a key: the
    entry of the last line that defines the key.  A key has the value [v] in
    the parsed store exactly when the key is not [__proto__], some line
    contributes the entry from the key to [v], and no later line contributes
    an entry for the key. *)
Theorem X9_last_line_for_a_key_wins (content k v : string) :
  RuleA.parseSimpleFormat content !! k = Some v
  <-> k <> "__proto__"
      /\ exists before l after,
          JS.split Regex.LF content = before ++ l :: after
          /\ line_entry l k v
          /\ forall l' v', l' ∈ after -> ~ line_entry l' k v'.
Proof.
  unfold RuleA.parseSimpleFormat.
  destruct (decide (k = "__proto__")) as [->|Hk].
  - rewrite fold_parse_lookup_proto, lookup_empty. split; [done | by intros []].
  - rewrite (fold_parse_lookup _ _ _ _ Hk). split.
    + intros [H|[H _]]; [done | by rewrite lookup_empty in H].
    + intros [_ H]. by left.
Qed.

(** X10: every entry of a store parsed from the simple format has a trimmed
    key without [=] and a trimmed value without line terminator. *)
Theorem X10_parsed_entries_are_trimmed (content k v : string) :
  RuleA.parseSimpleFormat content !! k = Some v ->
  JS.trim k = k /\ JS.trim v = v
  /\ Regex.all_chars Regex.not_eq_sign k = true
  /\ Regex.all_chars Regex.is_dot v = true.
Proof.
  unfold RuleA.parseSimpleFormat.
  destruct (decide (k = "__proto__")) as [->|Hproto];
    [by rewrite fold_parse_lookup_proto, lookup_empty|].
  rewrite (fold_parse_lookup _ _ _ _ Hproto).
  intros [(_ & l & _ & _ & (_ & key & value & Hkv & -> & ->) & _)|[H _]];
    [|by rewrite lookup_empty in H].
  destruct Hkv as (_ & _ & Hk & Hv).
  rewrite !trim_idem. repeat split; by apply all_chars_trim.
Qed.

Lemma X10_parsed_entries_witness :
  JS.trim "NEXT_PUBLIC_B" = "NEXT_PUBLIC_B" /\ JS.trim "because" = "because"
  /\ Regex.all_chars Regex.not_eq_sign "NEXT_PUBLIC_B" = true
  /\ Regex.all_chars Regex.is_dot "because" = true.
Proof.
  apply (X10_parsed_entries_are_trimmed
           (Sample.unlines
              [ "# justifications";
                Sample.entry_line " NEXT_PUBLIC_B " "  because  " ])).
  vm_compute. reflexivity.
Defined.

(** ** The process-wide aggregate of version A *)

Lemma lint_process_A h cwd rcPath program p lines justifications :
  RuleA.readJustificationsFile h cwd rcPath = (lines, Return justifications) ->
  fst (RuleA.lint h cwd rcPath program p)
  = {| RuleA.eslintPluginNextPublic :=
         Some {| RuleA.allFoundVariables :=
                   from_option RuleA.allFoundVariables ∅
                     (RuleA.eslintPluginNextPublic p)
                   ∪ foundVariables
                       (traverse (RuleA.enter justifications) program initial);
                 RuleA.processed :=
                   from_option RuleA.processed false
                     (RuleA.eslintPluginNextPublic p);
                 RuleA.exitListenerAdded :=
                   from_option RuleA.exitListenerAdded true
                     (RuleA.eslintPluginNextPublic p) |};
       RuleA.exitListeners :=
         match RuleA.eslintPluginNextPublic p with
         | Some _ => RuleA.exitListeners p
         | None => S (RuleA.exitListeners p)
         end;
       RuleA.console := RuleA.console p ++ lines |}.
Proof.
  intros Hload. unfold RuleA.lint, RuleA.create. rewrite Hload.
  destruct p as [[g|] listeners out]; reflexivity.
Qed.

Lemma lint_files_with_global h cwd rcPath lines justifications programs :
  RuleA.readJustificationsFile h cwd rcPath = (lines, Return justifications) ->
  forall p g,
    RuleA.eslintPluginNextPublic p = Some g ->
    RuleA.eslintPluginNextPublic (lint_files h cwd rcPath programs p)
    = Some {| RuleA.allFoundVariables :=
                RuleA.allFoundVariables g
                ∪ ⋃ (map (fun program =>
                            foundVariables
                              (traverse (RuleA.enter justifications) program
                                 initial)) programs);
              RuleA.processed := RuleA.processed g;
              RuleA.exitListenerAdded := RuleA.exitListenerAdded g |}
    /\ RuleA.exitListeners (lint_files h cwd rcPath programs p)
       = RuleA.exitListeners p.
Proof.
  intros Hload. unfold lint_files.
  induction programs as [|program programs IH]; intros p g Hg; cbn [fold_left map].
  - rewrite Hg. cbn. rewrite union_empty_r_L. by destruct g.
  - rewrite (lint_process_A _ _ _ program p _ _ Hload), Hg. cbn [from_option].
    edestruct IH as [-> ->]; [reflexivity|]. cbn. by rewrite union_assoc_L.
Qed.

(** X11: several files linted in one process that had no global object.
    However many files there are, one exit listener is registered; the
    global set is the union of the names found in the files; and the
    listener prints the size of that set and empties it. *)
Theorem X11_aggregate_over_files
  (h : Host) (cwd : path) (rcPath : option string) (lines : list string)
  (justifications : JustificationStore) (program : Node)
  (programs : list Node) (p : RuleA.Process) :
  RuleA.readJustificationsFile h cwd rcPath = (lines, Return justifications) ->
  RuleA.eslintPluginNextPublic p = None ->
  let all :=
    ⋃ (map (fun program =>
              foundVariables
                (traverse (RuleA.enter justifications) program initial))
         (program :: programs)) in
  let p' := lint_files h cwd rcPath (program :: programs) p in
  RuleA.exitListeners p' = S (RuleA.exitListeners p)
  /\ RuleA.eslintPluginNextPublic p'
     = Some {| RuleA.allFoundVariables := all; RuleA.processed := false;
               RuleA.exitListenerAdded := true |}
  /\ RuleA.exit_listener p'
     = Return {| RuleA.eslintPluginNextPublic :=
                   Some {| RuleA.allFoundVariables := ∅;
                           RuleA.processed := false;
                           RuleA.exitListenerAdded := true |};
                 RuleA.exitListeners := S (RuleA.exitListeners p);
                 RuleA.console :=
                   RuleA.console p'
                   ++ ["Found a total of " +:+ JS.of_nat (size all)
                         +:+ " unique NEXT_PUBLIC variables across all files."] |}.
Proof.
  intros Hload Hnone all p'.
  assert (RuleA.eslintPluginNextPublic p'
          = Some {| RuleA.allFoundVariables := all; RuleA.processed := false;
                    RuleA.exitListenerAdded := true |}
          /\ RuleA.exitListeners p' = S (RuleA.exitListeners p)) as [Hg Hl].
  { subst p' all. cbn [map union_list].
    change (lint_files h cwd rcPath (program :: programs) p)
      with (lint_files h cwd rcPath programs
              (fst (RuleA.lint h cwd rcPath program p))).
    rewrite (lint_process_A _ _ _ program p _ _ Hload), Hnone.
    cbn [from_option].
    edestruct (lint_files_with_global h cwd rcPath lines justifications
                 programs Hload) as [-> ->]; [reflexivity|].
    cbn. by rewrite union_empty_l_L. }
  split; [done|]. split; [done|].
  unfold RuleA.exit_listener. rewrite Hg, Hl. done.
Qed.

Lemma X11_aggregate_over_files_witness :
  let programs :=
    [ Sample.const_decl "url" (Sample.static_access "NEXT_PUBLIC_API_URL");
      Sample.const_decl "key" (Identifier "NEXT_PUBLIC_API_KEY");
      Sample.const_decl "again" (Identifier "NEXT_PUBLIC_API_URL") ] in
  let p' := lint_files Sample.bare_host ["proj"] None programs Sample.fresh_process in
  RuleA.exitListeners p' = 1
  /\ (RuleA.console <$> match RuleA.exit_listener p' with
                        | Return p'' => Some p''
                        | Throws _ => None
                        end)
     = Some [RuleA.no_file_message; RuleA.no_file_message; RuleA.no_file_message;
             "Found a total of 2 unique NEXT_PUBLIC variables across all files."].
Proof.
  cbv zeta.
  destruct (X11_aggregate_over_files Sample.bare_host ["proj"] None
              [RuleA.no_file_message] ∅
              (Sample.const_decl "url" (Sample.static_access "NEXT_PUBLIC_API_URL"))
              [ Sample.const_decl "key" (Identifier "NEXT_PUBLIC_API_KEY");
                Sample.const_decl "again" (Identifier "NEXT_PUBLIC_API_URL") ]
              Sample.fresh_process eq_refl eq_refl) as (Hl & _ & He).
  split; [exact Hl|]. rewrite He. vm_compute. reflexivity.
Defined.

(** ** Errors of the loaders *)

Lemma read_and_parse_throws h p e :
  RuleA.read_and_parse h p = Throws e ->
  e = ReadError /\ (fs h !! p = Some Unreadable \/ fs h !! p = None).
Proof.
  unfold RuleA.read_and_parse, readFileSync.
  destruct (fs h !! p) as [[content|]|]; [done| |]; intros [= <-]; auto.
Qed.

Lemma existsSync_true h p : existsSync h p = true -> fs h !! p <> None.
Proof. unfold existsSync. by destruct (fs h !! p). Qed.

Lemma search_throws h cwd e :
  snd (RuleA.search h cwd) = Throws e ->
  e = ReadError
  /\ exists d, d ∈ self_and_ancestors cwd /\ fs h !! rc_file d = Some Unreadable.
Proof.
  induction cwd as [|c parent IH]; [done|]. rewrite search_cons.
  destruct (existsSync h (rc_file (c :: parent))) eqn:Hex.
  - cbn [snd]. intros [-> [Hu|Hn]]%read_and_parse_throws.
    + split; [done|]. exists (c :: parent). split; [apply list_elem_of_here|done].
    + by apply existsSync_true in Hex.
  - intros H. destruct (IH H) as (-> & d & Hd & Hu). split; [done|].
    exists d. split; [by apply list_elem_of_further | done].
Qed.

(** X12: the only error of the loader of version A is the read error, and
    it is thrown only when the file the loader picked exists and cannot be
    read: the explicit path, or a [.nextpublicrc] in the working directory or
    in one of its ancestors below the root. *)
Theorem X12_loader_throws_only_on_unreadable_sidecar
  (h : Host) (cwd : path) (rcPath : option string) (e : error) :
  snd (RuleA.readJustificationsFile h cwd rcPath) = Throws e ->
  e = ReadError
  /\ exists p,
      fs h !! p = Some Unreadable
      /\ (RuleA.customRcPath cwd rcPath = Some p
          \/ exists d, d ∈ self_and_ancestors cwd /\ p = rc_file d).
Proof.
  unfold RuleA.readJustificationsFile.
  assert (snd (RuleA.search h cwd) = Throws e ->
          e = ReadError
          /\ exists p,
              fs h !! p = Some Unreadable
              /\ (RuleA.customRcPath cwd rcPath = Some p
                  \/ exists d, d ∈ self_and_ancestors cwd /\ p = rc_file d))
    as Hsearch.
  { intros (-> & d & Hd & Hu)%search_throws. split; [done|].
    exists (rc_file d). split; [done|]. right. by exists d. }
  destruct (RuleA.customRcPath cwd rcPath) as [p|]; [|done].
  destruct (existsSync h p) eqn:Hex; [|done].
  cbn [snd]. intros [-> [Hu|Hn]]%read_and_parse_throws.
  - split; [done|]. exists p. auto.
  - by apply existsSync_true in Hex.
Qed.

Lemma X12_loader_throws_witness :
  ReadError = ReadError
  /\ exists p,
      fs (Sample.host_with Sample.unreadable_files) !! p = Some Unreadable
      /\ (RuleA.customRcPath ["src"; "proj"] None = Some p
          \/ exists d, d ∈ self_and_ancestors ["src"; "proj"] /\ p = rc_file d).
Proof.
  apply (X12_loader_throws_only_on_unreadable_sidecar
           (Sample.host_with Sample.unreadable_files) ["src"; "proj"] None).
  vm_compute. reflexivity.
Defined.

(** X13: with no [rcPath] and a readable [.nextpublicrc] in the working
    directory (which is not the root), the loaders of the two versions
    return the same store, and version A prints nothing. *)
Theorem X13_loaders_agree_on_sidecar_in_working_directory
  (h : Host) (c : string) (parent : path) (content : string) :
  fs h !! rc_file (c :: parent) = Some (File content) ->
  RuleA.readJustificationsFile h (c :: parent) None
  = ([], Return (RuleB.readJustificationsFile h (c :: parent))).
Proof.
  intros Hfile. rewrite readJustificationsFile_search by exact I.
  rewrite search_cons, (existsSync_Some h _ _ Hfile).
  rewrite (read_and_parse_file h _ content Hfile).
  unfold RuleB.readJustificationsFile.
  change (Path.resolve (c :: parent) ".nextpublicrc") with (rc_file (c :: parent)).
  rewrite (existsSync_Some h _ _ Hfile). unfold readFileSync. rewrite Hfile.
  reflexivity.
Qed.

Lemma X13_loaders_agree_witness :
  RuleA.readJustificationsFile (Sample.host_with Sample.project_files) ["home"] None
  = ([], Return (RuleB.readJustificationsFile
                   (Sample.host_with Sample.project_files) ["home"])).
Proof.
  apply (X13_loaders_agree_on_sidecar_in_working_directory
           (Sample.host_with Sample.project_files) "home" [] Sample.api_url_line).
  vm_compute. reflexivity.
Defined.

(** Where the two loaders part: a sidecar file in the parent directory only
    is found by version A and not by version B, and one in the root only is
    found by version B (run in the root) and not by version A. *)
Example loaders_differ_above_and_at_root :
  snd (RuleA.readJustificationsFile (Sample.host_with Sample.project_files)
         ["proj"; "home"] None)
  = Return {[ "NEXT_PUBLIC_API_URL" :=
                "This URL is public because it is necessary for client API calls" ]}
  /\ RuleB.readJustificationsFile (Sample.host_with Sample.project_files)
       ["proj"; "home"] = ∅
  /\ snd (RuleA.readJustificationsFile (Sample.host_with Sample.root_only_files)
            Path.root None) = Return ∅
  /\ RuleB.readJustificationsFile (Sample.host_with Sample.root_only_files)
       Path.root
     = {[ "NEXT_PUBLIC_API_URL" :=
            "This URL is public because it is necessary for client API calls" ]}.
Proof. repeat split; vm_compute; reflexivity. Qed.

Lemma X2_diagnostic_reflects_store_witness :
  let justifications : JustificationStore := {[ "NEXT_PUBLIC_FLAG" := "short" ]} in
  let program := Sample.const_decl "flag" (Identifier "NEXT_PUBLIC_FLAG") in
  let d := {| diag_node := Identifier "NEXT_PUBLIC_FLAG";
              diag_message := msg_too_short "NEXT_PUBLIC_FLAG" |} in
  exists v,
    v ∈ foundVariables (traverse (RuleA.enter justifications) program initial)
    /\ ((diag_message d = msg_requires v
         /\ (justifications !! v = None \/ justifications !! v = Some ""))
        \/ (diag_message d = msg_too_short v
            /\ exists text,
                justifications !! v = Some text /\ text <> ""
                /\ String.length text < 20)).
Proof.
  apply (proj1 (X2_diagnostic_reflects_store
                  {[ "NEXT_PUBLIC_FLAG" := "short" ]}
                  (Sample.const_decl "flag" (Identifier "NEXT_PUBLIC_FLAG"))
                  {| diag_node := Identifier "NEXT_PUBLIC_FLAG";
                     diag_message := msg_too_short "NEXT_PUBLIC_FLAG" |})).
  rewrite run_A_normal. vm_compute. apply list_elem_of_here.
Defined.

(** A member access through a private name: [process.#env.NEXT_PUBLIC_X].
    The test on [node.object.property.name] does not look at the type of
    the node, so the [MemberExpression] visitor of version A validates the
    name, and the [Identifier] visitor validates it again; version B reports
    it once. *)
Example private_env_member_access :
  let access :=
    MemberExpression
      (MemberExpression (Identifier "process") (PrivateIdentifier "env") false)
      (Identifier "NEXT_PUBLIC_X") false in
  reports (traverse (RuleA.enter ∅) access initial)
  = [ {| diag_node := access; diag_message := msg_requires "NEXT_PUBLIC_X" |};
      {| diag_node := Identifier "NEXT_PUBLIC_X";
         diag_message := msg_requires "NEXT_PUBLIC_X" |} ]
  /\ reports (traverse (RuleB.enter ∅) access initial)
     = [ {| diag_node := Identifier "NEXT_PUBLIC_X";
            diag_message := msg_requires "NEXT_PUBLIC_X" |} ].
Proof. split; vm_compute; reflexivity. Qed.
